(** * Smart organizer: a shallow embedding of [organizer.py]

    The development follows the layout of the Python module: string
    helpers ([str.split], [str.strip], [str.lower], [in]), the rule engine
    ([_build_keyword_map], the extension and time classifiers), a model of
    the POSIX file-system calls the engine issues ([Path.mkdir],
    [shutil.move], [os.rmdir]), and the two operations of [FileOrganizer]
    ([organize_files], [undo_organization]) written with explicit state
    passing over that file system and an event trace (log records and
    progress callbacks, in the order they are emitted). *)

From stdpp Require Import gmap strings list fin_maps sorting.
From Stdlib Require Import Ascii QArith.
Close Scope Q_scope.
Local Open Scope string_scope.
Local Open Scope list_scope.
Local Open Scope nat_scope.
Local Open Scope stdpp_scope.

(** ** Python strings

    Strings are sequences of 8-bit characters.  Case folding and white
    space follow Python on the ASCII range; characters above 127 are left
    alone by [lower] and are never white space. *)

Module PyStr.

(** [c.isspace()] on the ASCII range: TAB, LF, VT, FF, CR, the four
    separators FS, GS, RS, US, and the blank. *)
Definition isspace (c : ascii) : bool :=
  let n := nat_of_ascii c in
  (((9 <=? n) && (n <=? 13)) || ((28 <=? n) && (n <=? 32)))%nat.

Definition lower_char (c : ascii) : ascii :=
  let n := nat_of_ascii c in
  if ((65 <=? n) && (n <=? 90))%nat then ascii_of_nat (n + 32) else c.

(** [s.lower()] *)
Fixpoint lower (s : string) : string :=
  match s with
  | "" => ""
  | String c s' => String (lower_char c) (lower s')
  end.

(** [s.lstrip()] *)
Fixpoint lstrip (s : string) : string :=
  match s with
  | "" => ""
  | String c s' => if isspace c then lstrip s' else s
  end.

(** [s.rstrip()] *)
Fixpoint rstrip (s : string) : string :=
  match s with
  | "" => ""
  | String c s' =>
      match rstrip s' with
      | "" => if isspace c then "" else String c ""
      | r => String c r
      end
  end.

(** [s.strip()] *)
Definition strip (s : string) : string := rstrip (lstrip s).

(** [s.split(sep)] for a one-character separator: never the empty list,
    [n] separators give [n + 1] fields. *)
Fixpoint split (sep : ascii) (s : string) : list string :=
  match s with
  | "" => [""]
  | String c s' =>
      if Ascii.eqb c sep then "" :: split sep s'
      else match split sep s' with
           | [] => [String c ""]
           | w :: ws => String c w :: ws
           end
  end.

(** [needle in hay] *)
Fixpoint contains (needle hay : string) : bool :=
  match hay with
  | "" => String.prefix needle ""
  | String _ hay' => String.prefix needle hay || contains needle hay'
  end.

(** Truthiness of a string: [if s] holds when [s] is not empty. *)
Definition truthy (s : string) : bool :=
  match s with "" => false | _ => true end.

Definition digit (n : nat) : ascii := ascii_of_nat (48 + n mod 10).

Fixpoint digits (fuel n : nat) (acc : string) : string :=
  match fuel with
  | 0 => acc
  | S fuel' =>
      let acc' := String (digit n) acc in
      if (n <? 10)%nat then acc' else digits fuel' (n / 10) acc'
  end.

(** [f"{n}"] for a natural number. *)
Definition of_nat (n : nat) : string := digits (S n) n "".

(** [f"{n:02d}"]: at least two digits, padded with a zero. *)
Definition pad2 (n : nat) : string :=
  if (n <? 10)%nat then String "0" (of_nat n) else of_nat n.

(** A decimal digit character. *)
Definition isdigit (c : ascii) : bool :=
  let n := nat_of_ascii c in ((48 <=? n) && (n <=? 57))%nat.

Fixpoint all_chars (p : ascii → bool) (s : string) : bool :=
  match s with
  | "" => true
  | String c s' => p c && all_chars p s'
  end.

End PyStr.

(** ** Python dictionaries

    A [dict] keeps its keys in first-insertion order, which
    [organize_files] relies on when it picks the first matching keyword:
    an association list with assignment in place. *)

Module PyDict.

Definition dict := list (string * string).

Fixpoint get (d : dict) (k : string) : option string :=
  match d with
  | [] => None
  | (k', v) :: d' => if String.eqb k' k then Some v else get d' k
  end.

(** [d[k] = v] *)
Fixpoint set (d : dict) (k v : string) : dict :=
  match d with
  | [] => [(k, v)]
  | (k', v') :: d' =>
      if String.eqb k' k then (k', v) :: d' else (k', v') :: set d' k v
  end.

Definition keys (d : dict) : list string := d.*1.

End PyDict.

(** ** Events

    What a call leaves behind besides the file system and its result:
    the records it sends to the logger and the percentages it hands to
    the progress callback, in emission order. *)

(** An absolute path, as the list of its components. *)
Notation path := (list string) (only parsing).

Inductive event :=
  | EvProgress (percentage : Q)
  | EvStart (sort_mode : string)
  | EvDuplicateKeyword (key folder : string)
  | EvNoFiles
  | EvFound (total : nat)
  | EvMoved (src dst : path)
  | EvMoveError (name : string)
  | EvTimeError (name : string)
  | EvHistorySaved
  | EvHistorySaveError
  | EvComplete (moved : nat)
  | EvUndoStart
  | EvHistoryEmpty
  | EvUndoMoved (dst src : path)
  | EvUndoNotFound (dst : path)
  | EvUndoError (dst : path)
  | EvFolderRemoved (folder : path)
  | EvFolderError (folder : path)
  | EvHistoryRemoved
  | EvHistoryUpdated
  | EvHistoryError
  | EvHistoryReadError.

(** ** Rule engine *)

(** The two [ValueError]s of the rule engine and the one of
    [organize_files]. *)
Inductive value_error :=
  | RuleMismatch (groups folders : nat)
  | EmptyRules
  | NoValidRules.

Inductive exn :=
  | ValueError (e : value_error)
  | IndexError.

(** The inner loop of [_build_keyword_map]: [keyword_map[key] = folder]
    for each key of one group, with a warning when the key is already
    bound. *)
Fixpoint assign_keys (keys : list string) (folder : string)
    (acc : PyDict.dict * list event) : PyDict.dict * list event :=
  match keys with
  | [] => acc
  | key :: keys' =>
      let log := if PyDict.get acc.1 key is Some _
                 then acc.2 ++ [EvDuplicateKeyword key folder]
                 else acc.2 in
      assign_keys keys' folder (PyDict.set acc.1 key folder, log)
  end.

(** [[k.strip().lower() for k in group.split(',') if k.strip()]] *)
Definition group_keys (group : string) : list string :=
  map (λ k, PyStr.lower (PyStr.strip k))
      (filter (λ k, PyStr.truthy (PyStr.strip k) = true) (PyStr.split "," group)).

(** The outer loop, [for i, group in enumerate(keyword_groups)]. *)
Fixpoint build_groups (i : nat) (groups folder_names : list string)
    (acc : PyDict.dict * list event) : exn + PyDict.dict * list event :=
  match groups with
  | [] => inr acc
  | group :: groups' =>
      match folder_names !! i with
      | None => inl IndexError
      | Some folder =>
          build_groups (S i) groups' folder_names
            (assign_keys (group_keys group) folder acc)
      end
  end.

Definition _build_keyword_map (keyword_rules folder_rules : string)
    : exn + PyDict.dict * list event :=
  let keyword_groups := map PyStr.strip (PyStr.split ";" keyword_rules) in
  let folder_names := map PyStr.strip (PyStr.split ";" folder_rules) in
  if negb (length keyword_groups =? length folder_names)%nat then
    inl (ValueError (RuleMismatch (length keyword_groups) (length folder_names)))
  else if negb (PyStr.truthy keyword_rules) || negb (PyStr.truthy folder_rules) then
    inl (ValueError EmptyRules)
  else build_groups 0 keyword_groups folder_names ([], []).

(** [PurePath.suffix]: the part of the name from its last dot on, when
    that dot is neither the first nor the last character.  [rsplit_dot]
    cuts a name at its last dot. *)
Fixpoint rsplit_dot (s : string) : option (string * string) :=
  match s with
  | "" => None
  | String c s' =>
      match rsplit_dot s' with
      | Some (stem, ext) => Some (String c stem, ext)
      | None => if Ascii.eqb c "." then Some ("", s') else None
      end
  end.

Definition suffix (name : string) : string :=
  match rsplit_dot name with
  | Some (stem, ext) =>
      if PyStr.truthy stem && PyStr.truthy ext then String "." ext else ""
  | None => ""
  end.

(** [extension[1:]] *)
Definition drop_first (s : string) : string :=
  match s with "" => "" | String _ s' => s' end.

(** Mode 3 of [organize_files]:
    [extension[1:].lower() if extension else "other"]. *)
Definition ext_folder_name (name : string) : string :=
  let extension := suffix name in
  if PyStr.truthy extension then PyStr.lower (drop_first extension) else "other".

(** The fields of a [datetime] that the time classifier reads. *)
Record datetime := DateTime {
  year : nat; month : nat; day : nat;
  hour : nat; minute : nat; second : nat
}.

(** The range of a [datetime] value. *)
Definition valid_datetime (t : datetime) : bool :=
  ((1 <=? year t) && (year t <? 100 * 100) && (1 <=? month t) && (month t <=? 12)
   && (1 <=? day t) && (day t <=? 31) && (hour t <=? 23)
   && (minute t <=? 59) && (second t <=? 59))%nat.

Definition granularity_in (g : string) (l : list string) : bool :=
  bool_decide (g ∈ l).

(** [f"{m_time.year // 10 * 10}s"] *)
Definition decade_name (t : datetime) : string :=
  PyStr.of_nat (year t / 10 * 10) +:+ "s".

(** Mode 2, nested layout: the list [parts]. *)
Definition time_parts (t : datetime) (granularity : string) : list string :=
  (if String.eqb granularity "Decade" then [decade_name t]
   else [PyStr.of_nat (year t)])
  ++ (if granularity_in granularity ["Month"; "Day"; "Hour"; "Minute"; "Second"]
      then [PyStr.pad2 (month t)] else [])
  ++ (if granularity_in granularity ["Day"; "Hour"; "Minute"; "Second"]
      then [PyStr.pad2 (day t)] else [])
  ++ (if granularity_in granularity ["Hour"; "Minute"; "Second"]
      then [PyStr.pad2 (hour t) +:+ "h"] else [])
  ++ (if granularity_in granularity ["Minute"; "Second"]
      then [PyStr.pad2 (minute t) +:+ "m"] else [])
  ++ (if String.eqb granularity "Second"
      then [PyStr.pad2 (second t) +:+ "s"] else []).

(** Mode 2, flat layout: [flat_name], empty for an unknown granularity. *)
Definition time_flat_name (t : datetime) (granularity : string) : string :=
  let base_name :=
    PyStr.of_nat (year t) +:+ "-" +:+ PyStr.pad2 (month t) +:+ "-" +:+ PyStr.pad2 (day t) in
  if String.eqb granularity "Decade" then decade_name t
  else if String.eqb granularity "Year" then PyStr.of_nat (year t)
  else if String.eqb granularity "Month" then
    PyStr.of_nat (year t) +:+ "-" +:+ PyStr.pad2 (month t)
  else if String.eqb granularity "Day" then base_name
  else if String.eqb granularity "Hour" then
    base_name +:+ "_" +:+ PyStr.pad2 (hour t) +:+ "h"
  else if String.eqb granularity "Minute" then
    base_name +:+ "_" +:+ PyStr.pad2 (hour t) +:+ "h" +:+ PyStr.pad2 (minute t) +:+ "m"
  else if String.eqb granularity "Second" then
    base_name +:+ "_" +:+ PyStr.pad2 (hour t) +:+ "h" +:+ PyStr.pad2 (minute t) +:+ "m"
      +:+ PyStr.pad2 (second t) +:+ "s"
  else "".

(** ** File system

    The tree the engine works on is a finite map from absolute paths
    (the list of components below the root, the root being [[]]) to nodes.
    A regular file carries what the engine can observe of it: the local
    time [datetime.fromtimestamp(stat().st_mtime)] yields ([None] when
    that call raises) and what reading it as JSON gives.  Symbolic links,
    permissions and devices are not modelled, so a system call fails only
    for the shape of the tree. The keys of the map are resolved paths;
    a path handed to a call may hold [".."], which [pathlib] keeps and
    the call resolves (see [resolve]). *)

(** A move record [(source, destination)], a batch, the history stack. *)
Notation batch := (list (list string * list string)) (only parsing).
Notation stack := (list (list (list string * list string))) (only parsing).

Inductive content :=
  | Binary (id : N)          (* not text: reading raises UnicodeDecodeError *)
  | Text (id : N)            (* text that is not JSON: JSONDecodeError *)
  | JsonOther (id : N)       (* a JSON document that is not an array *)
  | JsonStack (s : stack).   (* a JSON array of batches *)

Inductive node :=
  | Dir
  | File (mtime : option datetime) (data : content).

#[global] Instance datetime_eq_dec : EqDecision datetime.
Proof. solve_decision. Defined.
#[global] Instance content_eq_dec : EqDecision content.
Proof. solve_decision. Defined.
#[global] Instance node_eq_dec : EqDecision node.
Proof. solve_decision. Defined.

Inductive oserror :=
  | ENOENT | ENOTDIR | EEXIST | EISDIR | ENOTEMPTY | EINVAL | EBUSY
  | EACCES | EBADF | ELOOP
  | ShutilError.

Module FS.

Definition is_dir (fs : gmap path node) (p : path) : bool :=
  match fs !! p with Some Dir => true | _ => false end.

Definition is_file (fs : gmap path node) (p : path) : bool :=
  match fs !! p with Some (File _ _) => true | _ => false end.

Definition exists_ (fs : gmap path node) (p : path) : bool :=
  match fs !! p with Some _ => true | None => false end.

(** [Path.parent]; the root is its own parent. *)
Definition parent (p : path) : path := removelast p.

(** [Path.name] *)
Definition name (p : path) : string := List.last p "".

(** [p] is an entry of the directory [d]. *)
Definition child_of (d p : path) : Prop := p ≠ [] ∧ parent p = d.

#[global] Instance child_of_dec d p : Decision (child_of d p).
Proof. unfold child_of. apply _. Defined.

(** The names in directory [d], in the order of the map. *)
Definition children_names (fs : gmap path node) (d : path) : list string :=
  map name (filter (child_of d) (map_to_list fs).*1).

(** [not any(d.iterdir())] for a directory [d]. *)
Definition dir_is_empty (fs : gmap path node) (d : path) : bool :=
  bool_decide (map_Forall (λ p _, ¬ child_of d p) fs).

(** The tree is well formed: the root is a directory and every entry
    lies in a directory. *)
Definition wf (fs : gmap path node) : Prop :=
  fs !! [] = Some Dir ∧
  map_Forall (λ p _, is_dir fs (parent p) = true) fs.

#[global] Instance wf_dec fs : Decision (wf fs).
Proof. unfold wf. apply _. Defined.

(** The error of a lookup that finds nothing at [p]: [ENOTDIR] when the
    walk runs into a regular file, [ENOENT] otherwise. *)
Definition errno_missing (fs : gmap path node) (p : path) : oserror :=
  if existsb (λ i, is_file fs (take i p)) (seq 0 (length p))
  then ENOTDIR else ENOENT.

(** *** Paths with [..]

    A path handed to the system may hold [..] components (the folder of
    a keyword rule may): [pathlib] keeps them as they are and the
    system resolves each to the parent of the directory reached so far.
    The keys of a tree are resolved paths. A tree of the model could
    hold an entry named [..], which no directory does; the name then
    finds that entry. *)
Definition is_dotdot (fs : gmap path node) (cur : path) (s : string) : bool :=
  bool_decide (s = "..") && negb (exists_ fs (cur ++ [s])).

(** The error of a walk that has to pass through [cur], which is not a
    directory. *)
Definition not_a_directory (fs : gmap path node) (cur : path) : oserror :=
  match fs !! cur with
  | Some (File _ _) => ENOTDIR
  | _ => errno_missing fs cur
  end.

(** Where the path [p], read from the directory [cur], leads. A [..]
    needs the directory it leaves; the other components are looked up
    by the call that uses the result. *)
Fixpoint resolve_from (fs : gmap path node) (cur p : path) : oserror + path :=
  match p with
  | [] => inr cur
  | s :: p' =>
      if is_dotdot fs cur s then
        if is_dir fs cur then resolve_from fs (parent cur) p'
        else inl (not_a_directory fs cur)
      else resolve_from fs (cur ++ [s]) p'
  end.

Definition resolve (fs : gmap path node) (p : path) : oserror + path :=
  resolve_from fs [] p.

(** The directory entry that [p] names, for the calls that make, move
    or remove an entry: the parent resolved and the last component. A
    last component [..] names no entry; [dotdot_error] is what the call
    answers then. *)
Definition locate (dotdot_error : oserror) (fs : gmap path node) (p : path)
    : oserror + path :=
  match p with
  | [] => inr []
  | _ =>
      match resolve fs (parent p) with
      | inl err => inl err
      | inr d =>
          if is_dotdot fs d (name p) then
            if is_dir fs d then inl dotdot_error
            else inl (not_a_directory fs d)
          else inr (d ++ [name p])
      end
  end.

(** [os.path.exists(p)] and [os.path.isdir(p)] *)
Definition path_exists (fs : gmap path node) (p : path) : bool :=
  match resolve fs p with
  | inr q => exists_ fs q
  | inl _ => false
  end.

Definition path_isdir (fs : gmap path node) (p : path) : bool :=
  match resolve fs p with
  | inr q => is_dir fs q
  | inl _ => false
  end.

(** [os.path.samefile(p, q)], [False] when a [stat] fails. *)
Definition samefile (fs : gmap path node) (p q : path) : bool :=
  match resolve fs p, resolve fs q with
  | inr p', inr q' => bool_decide (p' = q') && exists_ fs p'
  | _, _ => false
  end.

(** [os.path.normpath(p)], which drops [..] with the component before
    it, whatever the tree holds. *)
Definition normpath (p : path) : path :=
  foldl (λ acc s, if bool_decide (s = "..") then removelast acc else acc ++ [s])
        [] p.

(** [Path.mkdir(parents=True, exist_ok=True)] on [pre / segs], [pre]
    being a directory: walks down, creating what is missing; fails
    ([None]) when it meets a regular file, and gives the directory
    reached otherwise. What was created before a failure stays. *)
Fixpoint mkdir_chain (fs : gmap path node) (pre : path) (segs : list string)
    : gmap path node * option path :=
  match segs with
  | [] => (fs, Some pre)
  | s :: segs' =>
      if is_dotdot fs pre s then mkdir_chain fs (parent pre) segs'
      else
        let q := pre ++ [s] in
        match fs !! q with
        | Some Dir => mkdir_chain fs q segs'
        | Some (File _ _) => (fs, None)
        | None => mkdir_chain (<[q := Dir]> fs) q segs'
        end
  end.

Definition mkdir_parents (fs : gmap path node) (p : path)
    : gmap path node * option path :=
  if is_dir fs [] then mkdir_chain fs [] p else (fs, None).

(** Where [p] lands when the tree at [src] is moved to [dst]. *)
Definition rebase (src dst p : path) : path :=
  if bool_decide (src `prefix_of` p) then dst ++ drop (length src) p else p.

Definition move_tree (fs : gmap path node) (src dst : path) : gmap path node :=
  list_to_map (map (λ kv, (rebase src dst kv.1, kv.2)) (map_to_list fs)).

(** [os.rename(src, dst)], on entries *)
Definition os_rename (fs : gmap path node) (src dst : path)
    : oserror + gmap path node :=
  match fs !! src with
  | None => inl (errno_missing fs src)
  | Some nd =>
      if bool_decide (src = dst) then inr fs
      else if bool_decide (src = []) then inl EBUSY
      else match fs !! parent dst with
           | None => inl (errno_missing fs (parent dst))
           | Some (File _ _) => inl ENOTDIR
           | Some Dir =>
               match nd, fs !! dst with
               | File _ _, Some Dir => inl EISDIR
               | File _ _, _ => inr (<[dst := nd]> (delete src fs))
               | Dir, Some (File _ _) => inl ENOTDIR
               | Dir, Some Dir =>
                   if bool_decide (src `prefix_of` dst) then inl EINVAL
                   else if dir_is_empty fs dst then inr (move_tree fs src dst)
                   else inl ENOTEMPTY
               | Dir, None =>
                   if bool_decide (src `prefix_of` dst) then inl EINVAL
                   else inr (move_tree fs src dst)
               end
           end
  end.

(** [os.rename(src, dst)] *)
Definition path_rename (fs : gmap path node) (src dst : path)
    : oserror + gmap path node :=
  match locate EBUSY fs src with
  | inl err => inl err
  | inr s =>
      match locate EBUSY fs dst with
      | inl err => inl err
      | inr d => os_rename fs s d
      end
  end.

(** [copytree(src, real_dst)] then [rmtree(src)], for a directory
    [src]: the target must not be there, its directories are made as
    [os.makedirs] makes them and stay when the call fails later. *)
Definition copytree_rmtree (fs : gmap path node) (src real_dst : path)
    : gmap path node * option oserror :=
  if path_exists fs real_dst then (fs, Some EEXIST)
  else
    let '(fs1, made) := mkdir_parents fs (parent real_dst) in
    match made, resolve fs src with
    | Some q, inr s =>
        if bool_decide (real_dst = []) || is_dotdot fs1 q (name real_dst)
        then (fs1, Some EEXIST)
        else (move_tree fs1 s (q ++ [name real_dst]), None)
    | None, _ => (fs1, Some ENOTDIR)
    | _, inl err => (fs1, Some err)
    end.

(** [shutil.move(src, dst)]: into [dst] when [dst] is a directory,
    onto [dst] otherwise.  When [os.rename] fails the library copies
    instead; without devices to cross that succeeds in one case only,
    a directory moved below a directory that is missing, which
    [copytree] creates. The result is the tree after the call and the
    error raised, if any. *)
Definition shutil_move (fs : gmap path node) (src dst : path)
    : gmap path node * option oserror :=
  if path_isdir fs dst && samefile fs src dst then
    match path_rename fs src dst with
    | inr fs' => (fs', None)
    | inl err => (fs, Some err)
    end
  else
    let real_dst := if path_isdir fs dst then dst ++ [name src] else dst in
    if path_isdir fs dst && path_exists fs real_dst then (fs, Some ShutilError)
    else match path_rename fs src real_dst with
         | inr fs' => (fs', None)
         | inl err =>
             if path_isdir fs src then
               if bool_decide (normpath src `prefix_of` normpath dst)
               then (fs, Some ShutilError)
               else copytree_rmtree fs src real_dst
             else (fs, Some err)
         end.

(** [os.rmdir(p)], on an entry *)
Definition rmdir (fs : gmap path node) (p : path) : oserror + gmap path node :=
  match fs !! p with
  | None => inl (errno_missing fs p)
  | Some (File _ _) => inl ENOTDIR
  | Some Dir =>
      if bool_decide (p = []) then inl EBUSY
      else if dir_is_empty fs p then inr (delete p fs)
      else inl ENOTEMPTY
  end.

(** [os.rmdir(p)] *)
Definition path_rmdir (fs : gmap path node) (p : path) : oserror + gmap path node :=
  match locate ENOTEMPTY fs p with
  | inl err => inl err
  | inr q => rmdir fs q
  end.

(** [not any(p.iterdir())] for a directory [p] *)
Definition path_dir_is_empty (fs : gmap path node) (p : path) : bool :=
  match resolve fs p with
  | inr q => dir_is_empty fs q
  | inl _ => false
  end.

(** [os.remove(p)] *)
Definition remove (fs : gmap path node) (p : path) : oserror + gmap path node :=
  match fs !! p with
  | None => inl (errno_missing fs p)
  | Some Dir => inl EISDIR
  | Some (File _ _) => inr (delete p fs)
  end.

(** [open(p, 'w')] followed by a complete write of [data]. *)
Definition write_file (fs : gmap path node) (p : path)
    (mtime : option datetime) (data : content) : oserror + gmap path node :=
  match fs !! p with
  | Some Dir => inl EISDIR
  | _ => match fs !! parent p with
         | Some Dir => inr (<[p := File mtime data]> fs)
         | Some (File _ _) => inl ENOTDIR
         | None => inl (errno_missing fs (parent p))
         end
  end.

(** The components of a path written as a string, as [pathlib] reads
    it: empty components and ["."] vanish, [".."] stays and is left to
    the calls that take the path (see [resolve]). *)
Definition path_parts (s : string) : list string :=
  filter (λ x, x ≠ "" ∧ x ≠ ".") (PyStr.split "/" s).

Definition is_absolute (s : string) : bool :=
  match s with String c _ => Ascii.eqb c "/" | "" => false end.

(** [p / s] *)
Definition joinpath (p : path) (s : string) : path :=
  if is_absolute s then path_parts s else p ++ path_parts s.

End FS.

(** ** The engine *)

(** A [FileOrganizer] instance and what its platform decides for it: the
    order in which [iterdir] lists a directory, the order in which a
    [set] of folders is iterated, and the time stamp a file written now
    receives. [source_directory] is the directory as a resolved path;
    the paths the engine builds from it alone (its entries, the history
    file) are used as they are. *)
Record engine := Engine {
  source_directory : path;
  progress_callback : bool;          (* a callback was passed to [__init__] *)
  readdir_order : list string → list string;
  set_order : list path → list path;
  now : option datetime
}.

(** The file system and the trace of events so far. *)
Record state := State {
  st_fs : gmap path node;
  st_out : list event
}.

Definition emit (ev : event) (st : state) : state :=
  State (st_fs st) (st_out st ++ [ev]).

#[global] Arguments emit : simpl never.

Definition history_name : string := ".organizer_history.json".
Definition config_name : string := ".organizer_config.json".

(** [self.history_file] *)
Definition history_file (e : engine) : path :=
  source_directory e ++ [history_name].

(** [source_directory.iterdir()], as names. *)
Definition iterdir (e : engine) (fs : gmap path node) : list string :=
  readdir_order e (FS.children_names fs (source_directory e)).

Definition _load_history_stack (e : engine) (st : state) : stack * state :=
  match st_fs st !! history_file e with
  | None => ([], st)
  | Some Dir => ([], emit EvHistoryReadError st)
  | Some (File _ (Binary _)) => ([], emit EvHistoryReadError st)
  | Some (File _ (Text _)) => ([], st)
  | Some (File _ (JsonOther _)) => ([], st)
  | Some (File _ (JsonStack s)) => (s, st)
  end.

(** [(current / total) * 100], as an exact rational. *)
Definition percentage (current total : nat) : Q :=
  ((inject_Z (Z.of_nat current) / inject_Z (Z.of_nat total)) * 100)%Q.

Definition _report_progress (e : engine) (current total : nat) (st : state) : state :=
  if progress_callback e && (0 <? total)
  then emit (EvProgress (percentage current total)) st
  else st.

(** [_move_file]: the state and the batch after the attempt, and whether
    it succeeded.  Directory entries are single components, so
    [destination_folder / item.name] appends the name. *)
Definition _move_file (item destination_folder : path) (acc : state * batch)
    : bool * (state * batch) :=
  let '(st, history_list) := acc in
  match FS.mkdir_parents (st_fs st) destination_folder with
  | (fs1, None) =>
      (false, (emit (EvMoveError (FS.name item)) (State fs1 (st_out st)),
               history_list))
  | (fs1, Some _) =>
      let destination_path := destination_folder ++ [FS.name item] in
      match FS.shutil_move fs1 item destination_path with
      | (fs2, None) =>
          (true, (emit (EvMoved item destination_path) (State fs2 (st_out st)),
                  history_list ++ [(item, destination_path)]))
      | (fs2, Some _) =>
          (false, (emit (EvMoveError (FS.name item)) (State fs2 (st_out st)),
                   history_list))
      end
  end.

(** What the body of the main loop decides for one file. *)
Inductive decision :=
  | Skip
  | TimeError
  | MoveTo (dest_folder : path).

(** The first entry of [keyword_map.items()] whose key occurs in the
    lower-cased name. *)
Fixpoint first_match (keyword_map : PyDict.dict) (lname : string) : option string :=
  match keyword_map with
  | [] => None
  | (key, folder_name) :: rest =>
      if PyStr.contains key lname then Some folder_name
      else first_match rest lname
  end.

Definition classify (e : engine) (sort_mode granularity : string)
    (keyword_map : PyDict.dict) (create_parent_folders : bool)
    (fs : gmap path node) (item : path) : decision :=
  if String.eqb sort_mode "By Keyword" then
    match first_match keyword_map (PyStr.lower (FS.name item)) with
    | Some folder_name => MoveTo (FS.joinpath (source_directory e) folder_name)
    | None => Skip
    end
  else if String.eqb sort_mode "By Time" then
    match fs !! item with
    | Some (File (Some m_time) _) =>
        if create_parent_folders then
          MoveTo (foldl FS.joinpath (source_directory e) (time_parts m_time granularity))
        else
          let flat_name := time_flat_name m_time granularity in
          if PyStr.truthy flat_name
          then MoveTo (FS.joinpath (source_directory e) flat_name)
          else Skip
    | _ => TimeError
    end
  else if String.eqb sort_mode "By Extension" then
    MoveTo (FS.joinpath (source_directory e) (ext_folder_name (FS.name item)))
  else Skip.

(** One iteration of the main loop of [organize_files], for the file at
    position [index] of [total_files]. *)
Definition organize_step (e : engine) (sort_mode granularity : string)
    (keyword_map : PyDict.dict) (create_parent_folders : bool)
    (total_files : nat) (acc : state * batch) (indexed : nat * path)
    : state * batch :=
  let '(index, item) := indexed in
  let acc' :=
    match classify e sort_mode granularity keyword_map create_parent_folders
            (st_fs acc.1) item with
    | Skip => acc
    | TimeError => (emit (EvTimeError (FS.name item)) acc.1, acc.2)
    | MoveTo dest_folder => (_move_file item dest_folder acc).2
    end in
  (_report_progress e (index + 1) total_files acc'.1, acc'.2).

(** [enumerate(l)] *)
Definition enumerate {A} (l : list A) : list (nat * A) :=
  zip (seq 0 (length l)) l.

(** Step 2 of [organize_files]: the regular files of the directory that
    are not the engine's own. *)
Definition files_to_process (e : engine) (fs : gmap path node) : list path :=
  map (λ n, source_directory e ++ [n])
    (filter (λ n, FS.is_file fs (source_directory e ++ [n]) = true
                  ∧ n ∉ [history_name; config_name])
            (iterdir e fs)).

(** Step 4 of [organize_files]: push the batch on the persisted stack. *)
Definition save_history (e : engine) (current_batch_history : batch) (st : state) : state :=
  let '(history_stack, st1) := _load_history_stack e st in
  match FS.write_file (st_fs st1) (history_file e) (now e)
          (JsonStack (history_stack ++ [current_batch_history])) with
  | inr fs' => emit EvHistorySaved (State fs' (st_out st1))
  | inl _ => emit EvHistorySaveError st1
  end.

Inductive pyexn :=
  | Raised (x : exn)
  | OSError (x : oserror).

(** [Path.exists()] swallows the [stat] errors that mean the path is
    not there and raises every other (pathlib's [_ignore_error]). *)
Definition exists_ignores (err : oserror) : bool :=
  match err with
  | ENOENT | ENOTDIR | EBADF | ELOOP => true
  | _ => false
  end.

(** [_load_history_stack] together with the answer of the platform to
    the [stat] behind [self.history_file.exists()]: [None] when the path
    could be examined, the error otherwise. The call comes before the
    [try], so an error that [exists] does not swallow leaves the
    function. The trees of this model carry no access rights; where the
    path can be examined the function is [_load_history_stack] above. *)
Definition _load_history_stack_stat (stat_error : option oserror)
    (e : engine) (st : state) : pyexn + (stack * state) :=
  match stat_error with
  | None => inr (_load_history_stack e st)
  | Some err =>
      if exists_ignores err then inr ([], st) else inl (OSError err)
  end.

Definition organize_files (e : engine) (sort_mode granularity keyword_rules
    folder_rules : string) (create_parent_folders : bool) (st : state)
    : (pyexn + nat) * state :=
  let st := emit (EvStart sort_mode) st in
  let rules :=
    if String.eqb sort_mode "By Keyword" then
      match _build_keyword_map keyword_rules folder_rules with
      | inl x => inl x
      | inr (keyword_map, warnings) =>
          if keyword_map is [] then inl (ValueError NoValidRules)
          else inr (keyword_map, warnings)
      end
    else inr ([], []) in
  match rules with
  | inl x => (inl (Raised x), st)
  | inr (keyword_map, warnings) =>
      let st := State (st_fs st) (st_out st ++ warnings) in
      if negb (FS.is_dir (st_fs st) (source_directory e)) then
        (inl (OSError (if FS.exists_ (st_fs st) (source_directory e)
                       then ENOTDIR
                       else FS.errno_missing (st_fs st) (source_directory e))), st)
      else
        let files := files_to_process e (st_fs st) in
        let total_files := length files in
        if total_files =? 0 then (inr 0, emit EvNoFiles st)
        else
          let st := emit (EvFound total_files) st in
          let '(st, current_batch_history) :=
            foldl (organize_step e sort_mode granularity keyword_map
                     create_parent_folders total_files)
                  (st, []) (enumerate files) in
          let st :=
            if current_batch_history is [] then st
            else save_history e current_batch_history st in
          (inr (length current_batch_history),
           emit (EvComplete (length current_batch_history)) st)
  end.

(** One iteration of the restore loop of [undo_organization]: the state,
    the folders to check (a set, kept without duplicates) and the count. *)
Definition undo_step (e : engine) (total_files : nat)
    (acc : state * list path * nat) (indexed : nat * (path * path))
    : state * list path * nat :=
  let '(st, folders_to_check, files_undone) := acc in
  let '(index, (source, dest)) := indexed in
  let '(st', folders', undone') :=
    match FS.shutil_move (st_fs st) dest source with
    | (fs', None) =>
        (emit (EvUndoMoved dest source) (State fs' (st_out st)),
         (if bool_decide (FS.parent dest ∈ folders_to_check) then folders_to_check
          else folders_to_check ++ [FS.parent dest]),
         files_undone + 1)
    | (fs', Some ENOENT) =>
        (emit (EvUndoNotFound dest) (State fs' (st_out st)),
         folders_to_check, files_undone)
    | (fs', Some _) =>
        (emit (EvUndoError dest) (State fs' (st_out st)),
         folders_to_check, files_undone)
    end in
  (_report_progress e (index + 1) total_files st', folders', undone').

(** The chain [p, p.parent, p.parent.parent, ...] up to the root. *)
Definition ancestors (p : path) : list path :=
  map (λ i, take i p) (reverse (seq 0 (S (length p)))).

(** The [while] loop of the folder cleanup, along such a chain: stops at
    the source directory, at a missing folder, at a folder that is not
    empty and at a failure. *)
Fixpoint cleanup_walk (e : engine) (chain : list path) (st : state) : state :=
  match chain with
  | [] => st
  | current_folder :: chain' =>
      if bool_decide (current_folder = source_directory e)
         || negb (FS.path_exists (st_fs st) current_folder) then st
      else if negb (FS.path_isdir (st_fs st) current_folder) then
        emit (EvFolderError current_folder) st
      else if FS.path_dir_is_empty (st_fs st) current_folder then
        match FS.path_rmdir (st_fs st) current_folder with
        | inr fs' =>
            cleanup_walk e chain'
              (emit (EvFolderRemoved current_folder) (State fs' (st_out st)))
        | inl _ => emit (EvFolderError current_folder) st
        end
      else st
  end.

(** Stable insertion by descending depth, for
    [sorted(..., key=lambda p: len(p.parts), reverse=True)]. *)
Fixpoint insert_by_depth (p : path) (l : list path) : list path :=
  match l with
  | [] => [p]
  | q :: l' =>
      if length p <? length q then q :: insert_by_depth p l'
      else p :: q :: l'
  end.

Definition sorted_by_depth (l : list path) : list path :=
  foldr insert_by_depth [] l.

Definition cleanup_folders (e : engine) (folders_to_check : list path) (st : state) : state :=
  foldl (λ st folder, cleanup_walk e (ancestors folder) st) st
        (sorted_by_depth (set_order e folders_to_check)).

(** Step 3 of [undo_organization]: remove or rewrite the history file. *)
Definition persist_history (e : engine) (history_stack : stack) (st : state) : state :=
  if history_stack is [] then
    match FS.remove (st_fs st) (history_file e) with
    | inr fs' => emit EvHistoryRemoved (State fs' (st_out st))
    | inl _ => emit EvHistoryError st
    end
  else
    match FS.write_file (st_fs st) (history_file e) (now e) (JsonStack history_stack) with
    | inr fs' => emit EvHistoryUpdated (State fs' (st_out st))
    | inl _ => emit EvHistoryError st
    end.

(** [history_stack.pop()]: the last batch and the rest. *)
Definition pop (s : stack) : option (stack * batch) :=
  match reverse s with
  | [] => None
  | b :: r => Some (reverse r, b)
  end.

Definition undo_organization (e : engine) (st : state) : nat * state :=
  let st := emit EvUndoStart st in
  let '(history_stack, st) := _load_history_stack e st in
  match pop history_stack with
  | None => (0, emit EvHistoryEmpty st)
  | Some (history_stack, last_batch) =>
      let total_files := length last_batch in
      if total_files =? 0 then (0, st)
      else
        let '(st, folders_to_check, files_undone) :=
          foldl (undo_step e total_files) (st, [], 0)
                (enumerate (reverse last_batch)) in
        let st := cleanup_folders e folders_to_check st in
        let st := persist_history e history_stack st in
        (files_undone, st)
  end.

(** ** Notions used to state the properties *)

(** A string without a dot. *)
Definition no_dot (s : string) : Prop :=
  PyStr.all_chars (λ c, negb (Ascii.eqb c ".")) s = true.

(** [name] has an extension in the sense of [pathlib]: it reads
    [stem.ext] with both parts non-empty and no dot in [ext]. *)
Definition has_extension (name ext : string) : Prop :=
  ∃ stem, name = stem +:+ "." +:+ ext ∧ stem ≠ "" ∧ ext ≠ "" ∧ no_dot ext.

(** The number a string of decimal digits denotes. *)
Fixpoint decimal_value_from (acc : nat) (s : string) : nat :=
  match s with
  | "" => acc
  | String c s' => decimal_value_from (10 * acc + (nat_of_ascii c - 48)) s'
  end.

Definition decimal_value (s : string) : nat := decimal_value_from 0 s.

(** A number below 100 written with two digits, and a number below
    10000 written with four. *)
Definition two_digits (n : nat) : string :=
  String (PyStr.digit (n / 10)) (String (PyStr.digit n) "").

Definition four_digits (n : nat) : string :=
  String (PyStr.digit (n / 1000)) (String (PyStr.digit (n / 100)) (two_digits n)).

(** The percentages handed to the progress callback, in order. *)
Definition progress_events (out : list event) : list Q :=
  omap (λ ev, match ev with EvProgress q => Some q | _ => None end) out.

(** One call of the callback after each of [total] items. *)
Definition expected_progress (total : nat) : list Q :=
  map (λ i, percentage i total) (seq 1 total).

(** The stack the engine would load from a file system. *)
Definition stored_stack (e : engine) (fs : gmap path node) : stack :=
  (_load_history_stack e (State fs [])).1.

(** The restore phase of an undo, told from the batch: the records are
    replayed last first, a record whose move fails is left out of the
    count. *)
Fixpoint restore_last_first (b : batch) (fs : gmap path node)
    : gmap path node * nat :=
  match b with
  | [] => (fs, 0)
  | (source, dest) :: b' =>
      let '(fs1, n) := restore_last_first b' fs in
      match FS.shutil_move fs1 dest source with
      | (fs2, None) => (fs2, S n)
      | (fs2, Some _) => (fs2, n)
      end
  end.

(** The restore attempts recorded in a trace: the destination of each
    record tried, and whether it was moved back. *)
Definition restore_attempts (out : list event) : list (path * bool) :=
  omap (λ ev, match ev with
              | EvUndoMoved dst _ => Some (dst, true)
              | EvUndoNotFound dst => Some (dst, false)
              | EvUndoError dst => Some (dst, false)
              | _ => None
              end) out.

(** [p] is one of the directories between [pre] (excluded) and
    [pre ++ segs] (included). *)
Definition on_chain (pre : path) (segs : list string) (p : path) : Prop :=
  ∃ k, 0 < k ≤ length segs ∧ p = pre ++ take k segs.


(** The rule table [organize_files] works with: the compiled keyword
    rules in keyword mode, the empty table otherwise. *)
Definition rule_table (sort_mode keyword_rules folder_rules : string) : PyDict.dict :=
  if String.eqb sort_mode "By Keyword" then
    match _build_keyword_map keyword_rules folder_rules with
    | inr (keyword_map, _) => keyword_map
    | inl _ => []
    end
  else [].

(** The moves a call of [organize_files] plans on a tree: each file to
    process with the folder it is classified into. *)
Definition planned (e : engine) (sort_mode granularity : string)
    (keyword_map : PyDict.dict) (nested : bool) (fs : gmap path node)
    : list (path * path) :=
  omap (λ item,
          match classify e sort_mode granularity keyword_map nested fs item with
          | MoveTo dest_folder => Some (item, dest_folder)
          | _ => None
          end)
       (files_to_process e fs).

(** The planned moves do not clash with what the directory holds: no
    path has a [..] component, every destination folder lies strictly
    below the source directory, its first component below that
    directory is neither a regular file nor the history file, and no
    destination path is a directory or lies on the way to a destination
    folder. *)
Definition clash_free (e : engine) (fs : gmap path node)
    (plan : list (path * path)) : Prop :=
  Forall (λ r : path * path,
            ".." ∉ r.1 ∧ ".." ∉ r.2
            ∧ source_directory e `prefix_of` r.2
            ∧ length (source_directory e) < length r.2
            ∧ FS.is_file fs (take (S (length (source_directory e))) r.2) = false
            ∧ take (S (length (source_directory e))) r.2 ≠ history_file e
            ∧ FS.is_dir fs (r.2 ++ [FS.name r.1]) = false
            ∧ Forall (λ r' : path * path, ¬ (r.2 ++ [FS.name r.1]) `prefix_of` r'.2) plan)
         plan.

#[global] Instance clash_free_dec e fs plan : Decision (clash_free e fs plan).
Proof. unfold clash_free. apply _. Defined.

(** The main loop has come from [fs0] to [fs] with the batch [b]: every
    recorded file is gone from its source and sits on its destination,
    and nothing else differs but for new directories on the way to a
    recorded destination. *)
Definition organized (plan : list (path * path)) (fs0 : gmap path node)
    (b : batch) (fs : gmap path node) : Prop :=
  FS.wf fs
  ∧ NoDup b.*1
  ∧ (∀ src dst, (src, dst) ∈ b →
       (src, FS.parent dst) ∈ plan
       ∧ dst = FS.parent dst ++ [FS.name src]
       ∧ fs !! src = None
       ∧ ∃ m c, fs0 !! src = Some (File m c) ∧ fs !! dst = Some (File m c))
  ∧ (∀ p, p ∉ b.*1 → p ∉ b.*2 →
       fs !! p = fs0 !! p
       ∨ (fs0 !! p = None ∧ fs !! p = Some Dir
          ∧ ∃ r, r ∈ b ∧ p `prefix_of` FS.parent r.2)).

(** The records [l] can be moved back on [fs]: no path has a [..]
    component, the sources are distinct entries of the source directory
    and are free, and each destination is a regular file named after
    its source, at least one folder down. *)
Definition restorable (e : engine) (l : list (path * path)) (fs : gmap path node) : Prop :=
  NoDup l.*1
  ∧ ∀ src dst, (src, dst) ∈ l →
      ".." ∉ src ∧ ".." ∉ dst
      ∧ (∃ n, src = source_directory e ++ [n])
      ∧ length (source_directory e) + 1 < length dst
      ∧ dst = FS.parent dst ++ [FS.name src]
      ∧ fs !! src = None
      ∧ ∃ m c, fs !! dst = Some (File m c).

(** A directory of [fs] that [fs0] does not have. *)
Definition fresh_dir (fs0 fs : gmap path node) (x : path) : Prop :=
  fs !! x = Some Dir ∧ fs0 !! x = None.

(** Whatever [fs0] does not have is a directory in [fs], the history
    file apart. *)
Definition only_dirs (e : engine) (fs0 fs : gmap path node) : Prop :=
  ∀ p nd, fs !! p = Some nd → fs0 !! p = None → p ≠ history_file e → nd = Dir.

(** [fs'] is [fs] with some directories removed. *)
Definition shrunk (fs fs' : gmap path node) : Prop :=
  ∀ p, fs' !! p = fs !! p ∨ (fs !! p = Some Dir ∧ fs' !! p = None).

(** The regular files directly under the source directory bear the same
    names in [fs] and [fs'], the history file apart. *)
Definition same_file_set (e : engine) (fs fs' : gmap path node) : Prop :=
  ∀ name, name ≠ history_name →
    FS.is_file fs' (source_directory e ++ [name])
    = FS.is_file fs (source_directory e ++ [name]).

(** Every folder of [fs'] is a folder of [fs]. *)
Definition no_new_folder (fs fs' : gmap path node) : Prop :=
  ∀ p, FS.is_dir fs' p = true → FS.is_dir fs p = true.

(** The records of [b] whose file is back: the source holds, in [fs'],
    what the destination held in [fs]. *)
Definition back_at_source (fs fs' : gmap path node) (b : batch) : batch :=
  filter (λ r : path * path, is_Some (fs !! r.2) ∧ fs' !! r.1 = fs !! r.2) b.

(** ** Example directories *)

Definition home : path := ["home"; "u"].

(** An engine on [/home/u] with a callback; [order] is how the platform
    lists a directory. *)
Definition demo (order : list string → list string) : engine :=
  Engine home true order id None.

(** A tree holding [/home/u] and the given entries. *)
Definition tree (entries : list (path * node)) : gmap path node :=
  list_to_map (([], Dir) :: (["home"], Dir) :: (home, Dir) :: entries).

Definition plain (id : N) : node :=
  File (Some (DateTime 2024 3 7 9 5 1)) (Text id).

(** The directory of the scenario of the spec: two pictures and a note. *)
Definition three_files : gmap path node :=
  tree [(home ++ ["a.jpg"], plain 1); (home ++ ["b.jpg"], plain 2);
        (home ++ ["notes.txt"], plain 3)].

(** A directory whose stored stack is one empty batch. *)
Definition stale_history : gmap path node :=
  tree [(home ++ [history_name], File None (JsonStack [[]]));
        (home ++ ["a.jpg"], plain 1)].

(** A file named like the folder another file goes to. *)
Definition name_clash : gmap path node :=
  tree [(home ++ ["txt"], plain 1); (home ++ ["a.txt"], plain 2)].

(** A directory organized once before: the note already sits in [txt]
    and the stack holds that batch. *)
Definition organized_before : gmap path node :=
  tree [(home ++ ["txt"], Dir); (home ++ ["txt"; "notes.txt"], plain 3);
        (home ++ [history_name],
         File None (JsonStack [[(home ++ ["notes.txt"], home ++ ["txt"; "notes.txt"])]]))].

(** * Properties *)

(** ** Strings *)

Lemma lower_length s : String.length (PyStr.lower s) = String.length s.
Proof. induction s as [|c s IH]; simpl; congruence. Qed.

Lemma lower_truthy s : PyStr.truthy (PyStr.lower s) = PyStr.truthy s.
Proof. by destruct s. Qed.

Lemma truthy_true s : PyStr.truthy s = true ↔ s ≠ "".
Proof. destruct s; simpl; split; congruence. Qed.

Lemma truthy_false s : PyStr.truthy s = false ↔ s = "".
Proof. destruct s; simpl; split; congruence. Qed.

Lemma lower_char_idemp c : PyStr.lower_char (PyStr.lower_char c) = PyStr.lower_char c.
Proof.
  destruct c as [[] [] [] [] [] [] [] []]; reflexivity.
Qed.

Lemma lower_idemp s : PyStr.lower (PyStr.lower s) = PyStr.lower s.
Proof. induction s as [|c s IH]; simpl; [done|]. by rewrite lower_char_idemp, IH. Qed.

Lemma split_nonempty sep s : PyStr.split sep s ≠ [].
Proof.
  induction s as [|c s IH]; simpl; [done|].
  destruct (Ascii.eqb c sep); [done|]. by destruct (PyStr.split sep s).
Qed.

(** Splitting a string that has no separator gives the string itself. *)
Lemma split_no_sep sep s :
  PyStr.all_chars (λ c, negb (Ascii.eqb c sep)) s = true → PyStr.split sep s = [s].
Proof.
  induction s as [|c s IH]; simpl; [done|].
  intros [Hc Hs]%andb_true_iff. rewrite (IH Hs).
  by apply negb_true_iff in Hc as ->.
Qed.

(** ** Extension classifier *)

Lemma rsplit_dot_Some s stem ext :
  rsplit_dot s = Some (stem, ext) → s = stem +:+ "." +:+ ext ∧ no_dot ext.
Proof.
  revert stem ext. induction s as [|c s IH]; intros stem ext; simpl; [done|].
  destruct (rsplit_dot s) as [[stem' ext']|] eqn:Hs.
  - intros [= <- <-]. destruct (IH _ _ eq_refl) as [-> ?]. done.
  - destruct (Ascii.eqb c ".") eqn:Hc; [|done].
    intros [= <- <-]. apply Ascii.eqb_eq in Hc as ->. split; [done|].
    clear IH. unfold no_dot. induction s as [|c s IH]; simpl in *; [done|].
    destruct (rsplit_dot s) as [[??]|]; [done|].
    destruct (Ascii.eqb c "."); [done|]. by rewrite IH.
Qed.

Lemma rsplit_dot_None s : rsplit_dot s = None → no_dot s.
Proof.
  unfold no_dot. induction s as [|c s IH]; simpl; [done|].
  destruct (rsplit_dot s) as [[??]|]; [done|].
  destruct (Ascii.eqb c "."); [done|]. by rewrite IH.
Qed.

Lemma rsplit_dot_no_dot s : no_dot s → rsplit_dot s = None.
Proof.
  unfold no_dot. induction s as [|c s IH]; simpl; [done|].
  intros [Hc Hs]%andb_true_iff. rewrite (IH Hs).
  by apply negb_true_iff in Hc as ->.
Qed.

Lemma rsplit_dot_app stem ext :
  no_dot ext → rsplit_dot (stem +:+ "." +:+ ext) = Some (stem, ext).
Proof.
  intros Hext. induction stem as [|c stem IH].
  - change (rsplit_dot (String "." ext) = Some ("", ext)).
    simpl. by rewrite (rsplit_dot_no_dot _ Hext).
  - change (rsplit_dot (String c (stem +:+ "." +:+ ext)) = Some (String c stem, ext)).
    simpl. by rewrite IH.
Qed.

Lemma has_extension_unique name ext1 ext2 :
  has_extension name ext1 → has_extension name ext2 → ext1 = ext2.
Proof.
  intros (s1 & -> & _ & _ & H1) (s2 & E & _ & _ & H2).
  apply rsplit_dot_app with (stem := s1) in H1.
  apply rsplit_dot_app with (stem := s2) in H2.
  rewrite E in H1. congruence.
Qed.

Lemma suffix_extension name ext :
  has_extension name ext → suffix name = String "." ext.
Proof.
  intros (stem & -> & Hs & He & Hd). unfold suffix.
  rewrite (rsplit_dot_app _ _ Hd).
  apply truthy_true in Hs as ->. by apply truthy_true in He as ->.
Qed.

Lemma suffix_no_extension name :
  (∀ ext, ¬ has_extension name ext) → suffix name = "".
Proof.
  intros Hno. unfold suffix.
  destruct (rsplit_dot name) as [[stem ext]|] eqn:E; [|done].
  apply rsplit_dot_Some in E as [-> Hd].
  destruct (PyStr.truthy stem) eqn:Hs; [|done].
  destruct (PyStr.truthy ext) eqn:He; [|done].
  destruct (Hno ext). exists stem. by rewrite <- !truthy_true.
Qed.

(** C5. The destination of a file classified by extension is its
    extension in lower case, without the dot, and ["other"] when the
    name has no extension; ["report.TXT"] goes to ["txt"] and ["README"]
    to ["other"]. *)
Theorem ext_folder_name_spec (name : string) :
  (∀ ext, has_extension name ext → ext_folder_name name = PyStr.lower ext)
  ∧ ((∀ ext, ¬ has_extension name ext) → ext_folder_name name = "other")
  ∧ PyStr.lower (ext_folder_name name) = ext_folder_name name
  ∧ ext_folder_name "report.TXT" = "txt"
  ∧ ext_folder_name "README" = "other".
Proof.
  assert (Hyes : ∀ ext, has_extension name ext →
                        ext_folder_name name = PyStr.lower ext).
  { intros ext H. unfold ext_folder_name. by rewrite (suffix_extension _ _ H). }
  assert (Hno : (∀ ext, ¬ has_extension name ext) → ext_folder_name name = "other").
  { intros H. unfold ext_folder_name. by rewrite (suffix_no_extension _ H). }
  split; [exact Hyes|]. split; [exact Hno|].
  split; [|split; reflexivity].
  unfold ext_folder_name. destruct (PyStr.truthy (suffix name)); [|reflexivity].
  apply lower_idemp.
Qed.

(** ** Keyword rules *)

Lemma dict_set_keys d k v x :
  x ∈ PyDict.keys (PyDict.set d k v) ↔ x ∈ PyDict.keys d ∨ x = k.
Proof.
  unfold PyDict.keys. induction d as [|[k' v'] d IH]; simpl.
  - rewrite list_elem_of_singleton. split; [by right|]. by intros [[]%elem_of_nil|].
  - destruct (String.eqb k' k) eqn:E; simpl.
    + apply String.eqb_eq in E as ->. rewrite elem_of_cons. naive_solver.
    + rewrite !elem_of_cons, IH. naive_solver.
Qed.

Lemma assign_keys_keys keys folder acc x :
  x ∈ PyDict.keys (assign_keys keys folder acc).1 ↔ x ∈ PyDict.keys acc.1 ∨ x ∈ keys.
Proof.
  revert acc. induction keys as [|key keys IH]; intros acc; simpl.
  - rewrite elem_of_nil. naive_solver.
  - rewrite IH. simpl. rewrite dict_set_keys, elem_of_cons. naive_solver.
Qed.

Lemma build_groups_keys i groups folder_names acc km w x :
  build_groups i groups folder_names acc = inr (km, w) →
  x ∈ PyDict.keys km →
  x ∈ PyDict.keys acc.1 ∨ ∃ group, group ∈ groups ∧ x ∈ group_keys group.
Proof.
  revert i acc. induction groups as [|g groups IH]; intros i acc; simpl.
  - intros [= ->]. by left.
  - destruct (folder_names !! i) as [folder|]; [|done].
    intros H Hx. destruct (IH _ _ H Hx) as [Hacc|(g' & Hg' & Hk)].
    + apply assign_keys_keys in Hacc as [?|?]; [by left|].
      right. exists g. split; [left|done].
    + right. exists g'. split; [by right|done].
Qed.

Lemma group_keys_spec group key :
  key ∈ group_keys group ↔
  ∃ k, k ∈ PyStr.split "," group ∧ PyStr.strip k ≠ "" ∧ key = PyStr.lower (PyStr.strip k).
Proof.
  unfold group_keys. rewrite list_elem_of_fmap. split.
  - intros (k & -> & [Ht Hk]%list_elem_of_filter). exists k.
    by rewrite <- truthy_true.
  - intros (k & Hk & Hs & ->). exists k. split; [done|].
    apply list_elem_of_filter. by rewrite truthy_true.
Qed.

Lemma lower_nonempty s : s ≠ "" → PyStr.lower s ≠ "".
Proof. by destruct s. Qed.

(** A keyword that is not empty misses some file name. *)
Lemma nonempty_key_misses key :
  key ≠ "" → ∃ name, name ≠ "" ∧ PyStr.contains key (PyStr.lower name) = false.
Proof.
  intros Hkey. destruct (decide (key = "0")) as [->|Hne].
  - by exists "1".
  - exists "0". split; [done|]. change (PyStr.lower "0") with "0".
    destruct key as [|c [|c' key]]; [done| |]; simpl.
    + destruct (Ascii.ascii_dec c "0") as [->|]; [done|]. done.
    + destruct (Ascii.ascii_dec c "0"); done.
Qed.

(** C10. The compiled rule table never has the empty string as a key:
    every key is a trimmed, lower-cased, non-empty field of a keyword
    group, so each key misses some file name. *)
Theorem build_keyword_map_keys (keyword_rules folder_rules : string)
    (km : PyDict.dict) (w : list event) :
  _build_keyword_map keyword_rules folder_rules = inr (km, w) →
  "" ∉ PyDict.keys km
  ∧ (∀ key, key ∈ PyDict.keys km →
       ∃ group k, group ∈ PyStr.split ";" keyword_rules
                  ∧ k ∈ PyStr.split "," (PyStr.strip group)
                  ∧ PyStr.strip k ≠ ""
                  ∧ key = PyStr.lower (PyStr.strip k))
  ∧ (∀ key, key ∈ PyDict.keys km →
       ∃ name, name ≠ "" ∧ PyStr.contains key (PyStr.lower name) = false).
Proof.
  unfold _build_keyword_map.
  destruct (negb _); [done|]. destruct (_ || _); [done|].
  intros H.
  assert (Hkeys : ∀ key, key ∈ PyDict.keys km →
     ∃ group k, group ∈ PyStr.split ";" keyword_rules
                ∧ k ∈ PyStr.split "," (PyStr.strip group)
                ∧ PyStr.strip k ≠ "" ∧ key = PyStr.lower (PyStr.strip k)).
  { intros key Hkey.
    destruct (build_groups_keys _ _ _ _ _ _ _ H Hkey) as [[]%elem_of_nil|(g & Hg & Hk)].
    apply list_elem_of_fmap in Hg as (group & -> & Hgroup).
    apply group_keys_spec in Hk as (k & ? & ? & ->). by exists group, k. }
  assert (Hne : ∀ key, key ∈ PyDict.keys km → key ≠ "").
  { intros key (g & k & _ & _ & Hk & ->)%Hkeys. by apply lower_nonempty. }
  split; [|split; [done|]].
  - intros Hin. by apply (Hne _ Hin).
  - intros key Hin. apply nonempty_key_misses. auto.
Qed.

Lemma build_keyword_map_keys_witness :
  _build_keyword_map "a,,b" "X" = inr ([("a", "X"); ("b", "X")], [])
  ∧ "" ∉ PyDict.keys [("a", "X"); ("b", "X")].
Proof.
  split; [reflexivity|].
  apply (build_keyword_map_keys "a,,b" "X" _ []). reflexivity.
Defined.

(** ** Validation of the rule strings *)

Lemma all_chars_impl (p q : ascii → bool) s :
  (∀ c, p c = true → q c = true) →
  PyStr.all_chars p s = true → PyStr.all_chars q s = true.
Proof.
  intros Hpq. induction s as [|c s IH]; simpl; [done|].
  intros [Hc Hs]%andb_true_iff. by rewrite (Hpq _ Hc), IH.
Qed.

Lemma rstrip_empty s : PyStr.rstrip s = "" → PyStr.all_chars PyStr.isspace s = true.
Proof.
  induction s as [|c s IH]; simpl; [done|].
  destruct (PyStr.rstrip s); [|done].
  destruct (PyStr.isspace c); [|done]. auto.
Qed.

Lemma lstrip_all_space s :
  PyStr.all_chars PyStr.isspace (PyStr.lstrip s) = true →
  PyStr.all_chars PyStr.isspace s = true.
Proof.
  induction s as [|c s IH]; simpl; [done|].
  destruct (PyStr.isspace c) eqn:Hc; simpl; [done|]. by rewrite Hc.
Qed.

Lemma strip_empty s : PyStr.strip s = "" → PyStr.all_chars PyStr.isspace s = true.
Proof. intros H. by apply lstrip_all_space, rstrip_empty. Qed.

Lemma isspace_not_sep c sep :
  PyStr.isspace sep = false → PyStr.isspace c = true → negb (Ascii.eqb c sep) = true.
Proof.
  intros Hsep Hc. apply negb_true_iff, Ascii.eqb_neq. congruence.
Qed.

(** A string of white space only is one group, and that group has no
    keyword. *)
Lemma blank_single_group s :
  PyStr.strip s = "" → map PyStr.strip (PyStr.split ";" s) = [""].
Proof.
  intros H. rewrite split_no_sep; simpl; [by rewrite H|].
  eapply all_chars_impl; [|by apply strip_empty].
  intros c. by apply isspace_not_sep.
Qed.

Lemma build_keyword_map_mismatch keyword_rules folder_rules :
  length (PyStr.split ";" keyword_rules) ≠ length (PyStr.split ";" folder_rules) →
  _build_keyword_map keyword_rules folder_rules
  = inl (ValueError (RuleMismatch (length (PyStr.split ";" keyword_rules))
                                  (length (PyStr.split ";" folder_rules)))).
Proof.
  intros Hne. unfold _build_keyword_map. rewrite !length_map.
  by apply Nat.eqb_neq in Hne as ->.
Qed.

Lemma build_keyword_map_empty keyword_rules folder_rules :
  length (PyStr.split ";" keyword_rules) = length (PyStr.split ";" folder_rules) →
  keyword_rules = "" ∨ folder_rules = "" →
  _build_keyword_map keyword_rules folder_rules = inl (ValueError EmptyRules).
Proof.
  intros Hlen Hempty. unfold _build_keyword_map. rewrite !length_map, Hlen, Nat.eqb_refl.
  simpl. by destruct Hempty as [-> | ->]; simpl; rewrite ?orb_true_r.
Qed.

Lemma build_keyword_map_blank keyword_rules folder_rules :
  length (PyStr.split ";" keyword_rules) = length (PyStr.split ";" folder_rules) →
  keyword_rules ≠ "" → folder_rules ≠ "" → PyStr.strip keyword_rules = "" →
  _build_keyword_map keyword_rules folder_rules = inr ([], []).
Proof.
  intros Hlen Hk Hf Hblank. unfold _build_keyword_map.
  rewrite !length_map, Hlen, Nat.eqb_refl. simpl.
  apply truthy_true in Hk as ->. apply truthy_true in Hf as ->. simpl.
  assert (∃ folder, map PyStr.strip (PyStr.split ";" folder_rules) = [folder]) as [folder ->].
  { rewrite <- (length_map PyStr.strip (PyStr.split ";" keyword_rules)),
      blank_single_group in Hlen by done.
    destruct (PyStr.split ";" folder_rules) as [|f [|??]]; simplify_eq/=. eauto. }
  by rewrite blank_single_group.
Qed.

Lemma organize_files_bad_rules e granularity keyword_rules folder_rules nested st x :
  _build_keyword_map keyword_rules folder_rules = inl x →
  organize_files e "By Keyword" granularity keyword_rules folder_rules nested st
  = (inl (Raised x), emit (EvStart "By Keyword") st).
Proof. intros H. unfold organize_files. simpl. by rewrite H. Qed.

(** C3, as the code has it. Compilation fails with a [ValueError] when
    the numbers of groups and of folders differ and when either rule
    string is empty; a keyword string of white space only compiles to an
    empty table, which [organize_files] rejects with a [ValueError] of
    its own.  In keyword mode each of these failures leaves the file
    system as it was, before any file is listed or moved. *)
Theorem keyword_rules_validation (e : engine)
    (granularity keyword_rules folder_rules : string) (nested : bool) (st : state) :
  let groups := length (PyStr.split ";" keyword_rules) in
  let folders := length (PyStr.split ";" folder_rules) in
  let run := organize_files e "By Keyword" granularity keyword_rules folder_rules nested st in
  (groups ≠ folders →
     _build_keyword_map keyword_rules folder_rules
     = inl (ValueError (RuleMismatch groups folders)))
  ∧ (groups = folders → keyword_rules = "" ∨ folder_rules = "" →
     _build_keyword_map keyword_rules folder_rules = inl (ValueError EmptyRules))
  ∧ (∀ x, _build_keyword_map keyword_rules folder_rules = inl x →
     run = (inl (Raised x), emit (EvStart "By Keyword") st))
  ∧ (groups ≠ folders ∨ keyword_rules = "" ∨ folder_rules = ""
     ∨ PyStr.strip keyword_rules = "" →
     ∃ v, run = (inl (Raised (ValueError v)), emit (EvStart "By Keyword") st)).
Proof.
  intros groups folders run.
  split; [apply build_keyword_map_mismatch|].
  split; [apply build_keyword_map_empty|].
  split; [apply organize_files_bad_rules|].
  intros Hbad. subst run.
  destruct (decide (groups = folders)) as [Hlen|Hlen].
  2: { eexists. by apply organize_files_bad_rules, build_keyword_map_mismatch. }
  destruct (decide (keyword_rules = "")) as [Hk|Hk].
  { eexists. apply organize_files_bad_rules, build_keyword_map_empty; auto. }
  destruct (decide (folder_rules = "")) as [Hf|Hf].
  { eexists. apply organize_files_bad_rules, build_keyword_map_empty; auto. }
  destruct Hbad as [?|[?|[?|Hblank]]]; [done..|].
  exists NoValidRules. unfold organize_files. simpl.
  by rewrite build_keyword_map_blank.
Qed.

(** C3, as the spec states it, fails: a folder string of white space
    only is empty after trimming, and the rules compile. *)
Lemma blank_folder_rules_accepted :
  ¬ (∀ keyword_rules folder_rules,
       PyStr.strip keyword_rules = "" ∨ PyStr.strip folder_rules = "" →
       ∃ x, _build_keyword_map keyword_rules folder_rules = inl x).
Proof.
  intros H. destruct (H "a" " ") as [x Hx]; [by right|]. discriminate Hx.
Qed.

(** ** Decimal numerals *)

Lemma string_app_assoc (s1 s2 s3 : string) : (s1 +:+ s2) +:+ s3 = s1 +:+ (s2 +:+ s3).
Proof.
  induction s1 as [|c s1 IH]; [done|].
  change (String c ((s1 +:+ s2) +:+ s3) = String c (s1 +:+ s2 +:+ s3)). by rewrite IH.
Qed.

Lemma digits_unfold fuel n acc :
  n < fuel →
  PyStr.digits fuel n acc
  = if n <? 10 then String (PyStr.digit n) acc
    else PyStr.digits (fuel - 1) (n / 10) (String (PyStr.digit n) acc).
Proof.
  destruct fuel as [|fuel]; [lia|]. intros _. simpl. by rewrite Nat.sub_0_r.
Qed.

Lemma digits_acc fuel n acc :
  n < fuel → PyStr.digits fuel n acc = PyStr.digits fuel n "" +:+ acc.
Proof.
  revert n acc. induction fuel as [|fuel IH]; intros n acc Hn; [lia|].
  simpl. destruct (n <? 10) eqn:E; [done|].
  apply Nat.ltb_ge in E.
  assert (n / 10 < fuel) by (apply Nat.Div0.div_lt_upper_bound; lia).
  rewrite (IH _ (String _ acc)), (IH _ (String _ "")) by done.
  by rewrite string_app_assoc.
Qed.

Lemma digits_fuel fuel n : n < fuel → PyStr.digits fuel n "" = PyStr.of_nat n.
Proof.
  unfold PyStr.of_nat. revert fuel. induction (lt_wf n) as [n _ IH]; intros fuel Hn.
  rewrite (digits_unfold fuel), (digits_unfold (S n)) by lia.
  destruct (n <? 10) eqn:E; [done|].
  apply Nat.ltb_ge in E. replace (S n - 1) with n by lia.
  assert (n / 10 < n) by (apply Nat.div_lt; lia).
  rewrite (digits_acc (fuel - 1)), (digits_acc n) by lia.
  rewrite (IH (n / 10)) by lia. symmetry. rewrite (IH (n / 10)) by lia. done.
Qed.

(** The numeral of [n] is that of [n / 10] followed by the last digit. *)
Lemma of_nat_step n :
  10 ≤ n → PyStr.of_nat n = PyStr.of_nat (n / 10) +:+ String (PyStr.digit n) "".
Proof.
  intros Hn. unfold PyStr.of_nat at 1. rewrite digits_unfold by lia.
  assert (n / 10 < n) by (apply Nat.div_lt; lia).
  apply Nat.ltb_ge in Hn as ->. replace (S n - 1) with n by lia.
  by rewrite digits_acc, digits_fuel.
Qed.

Lemma of_nat_small n : n < 10 → PyStr.of_nat n = String (PyStr.digit n) "".
Proof.
  intros Hn. unfold PyStr.of_nat. rewrite digits_unfold by lia.
  by apply Nat.ltb_lt in Hn as ->.
Qed.

Lemma digit_value n : nat_of_ascii (PyStr.digit n) - 48 = n mod 10.
Proof.
  unfold PyStr.digit. rewrite nat_ascii_embedding.
  - lia.
  - pose proof (Nat.mod_upper_bound n 10). lia.
Qed.

Lemma decimal_value_snoc acc s c :
  decimal_value_from acc (s +:+ String c "")
  = 10 * decimal_value_from acc s + (nat_of_ascii c - 48).
Proof.
  revert acc. induction s as [|c' s IH]; intros acc; [done|].
  change (String c' s +:+ String c "") with (String c' (s +:+ String c "")).
  simpl. by rewrite IH.
Qed.

(** [of_nat] writes the decimal numeral of its argument. *)
Lemma of_nat_value n : decimal_value (PyStr.of_nat n) = n.
Proof.
  induction (lt_wf n) as [n _ IH].
  destruct (decide (n < 10)) as [Hn|Hn].
  - rewrite of_nat_small by done. unfold decimal_value.
    cbn [decimal_value_from]. rewrite digit_value. rewrite Nat.mod_small; lia.
  - rewrite of_nat_step by lia. unfold decimal_value in *.
    rewrite decimal_value_snoc, digit_value, IH.
    + pose proof (Nat.div_mod_eq n 10). lia.
    + apply Nat.div_lt; lia.
Qed.

Lemma of_nat_two_digits n : 10 ≤ n < 100 → PyStr.of_nat n = two_digits n.
Proof.
  intros Hn. rewrite of_nat_step, of_nat_small; [done| |lia].
  apply Nat.Div0.div_lt_upper_bound. lia.
Qed.

Lemma of_nat_four_digits n : 1000 ≤ n < 100 * 100 → PyStr.of_nat n = four_digits n.
Proof.
  intros Hn.
  assert (n / 10 / 10 / 10 = n / 1000) as E3 by (rewrite !Nat.Div0.div_div; done).
  assert (n / 10 / 10 = n / 100) as E2 by (rewrite !Nat.Div0.div_div; done).
  assert (n / 1000 < 10) by (apply Nat.Div0.div_lt_upper_bound; lia).
  assert (10 ≤ n / 100) by (apply Nat.div_le_lower_bound; lia).
  assert (10 ≤ n / 10) by (apply Nat.div_le_lower_bound; lia).
  rewrite (of_nat_step n) by lia.
  rewrite (of_nat_step (n / 10)) by lia.
  rewrite (of_nat_step (n / 10 / 10)) by (rewrite E2; lia).
  rewrite E3, E2, of_nat_small by lia. done.
Qed.

Lemma pad2_two_digits n : n < 100 → PyStr.pad2 n = two_digits n.
Proof.
  intros Hn. unfold PyStr.pad2. destruct (n <? 10) eqn:E.
  - apply Nat.ltb_lt in E. rewrite of_nat_small by done.
    unfold two_digits. by rewrite Nat.div_small.
  - apply Nat.ltb_ge in E. by apply of_nat_two_digits.
Qed.

Lemma decade_arith y : y / 10 * 10 = y - y mod 10.
Proof. pose proof (Nat.div_mod_eq y 10). lia. Qed.

(** ** Time classifier *)

Lemma valid_datetime_bounds t :
  valid_datetime t = true →
  1 ≤ year t < 100 * 100 ∧ 1 ≤ month t ≤ 12 ∧ 1 ≤ day t ≤ 31
  ∧ hour t ≤ 23 ∧ minute t ≤ 59 ∧ second t ≤ 59.
Proof.
  unfold valid_datetime. rewrite !andb_true_iff, !Nat.leb_le, Nat.ltb_lt. lia.
Qed.

(** The classifier on the seven granularities, before any fact about
    numerals is used. *)
Lemma time_flat_name_cases t :
  let Y := PyStr.of_nat (year t) in
  let day_name := Y +:+ "-" +:+ PyStr.pad2 (month t) +:+ "-" +:+ PyStr.pad2 (day t) in
  time_flat_name t "Decade" = PyStr.of_nat (year t / 10 * 10) +:+ "s"
  ∧ time_flat_name t "Year" = Y
  ∧ time_flat_name t "Month" = Y +:+ "-" +:+ PyStr.pad2 (month t)
  ∧ time_flat_name t "Day" = day_name
  ∧ time_flat_name t "Hour" = day_name +:+ "_" +:+ PyStr.pad2 (hour t) +:+ "h"
  ∧ time_flat_name t "Minute"
    = day_name +:+ "_" +:+ PyStr.pad2 (hour t) +:+ "h" +:+ PyStr.pad2 (minute t) +:+ "m"
  ∧ time_flat_name t "Second"
    = day_name +:+ "_" +:+ PyStr.pad2 (hour t) +:+ "h" +:+ PyStr.pad2 (minute t) +:+ "m"
      +:+ PyStr.pad2 (second t) +:+ "s".
Proof. repeat split; reflexivity. Qed.

Lemma time_parts_cases t :
  let Y := PyStr.of_nat (year t) in
  let MM := PyStr.pad2 (month t) in
  let DD := PyStr.pad2 (day t) in
  let hh := PyStr.pad2 (hour t) +:+ "h" in
  let mm := PyStr.pad2 (minute t) +:+ "m" in
  let ss := PyStr.pad2 (second t) +:+ "s" in
  time_parts t "Decade" = [PyStr.of_nat (year t / 10 * 10) +:+ "s"]
  ∧ time_parts t "Year" = [Y]
  ∧ time_parts t "Month" = [Y; MM]
  ∧ time_parts t "Day" = [Y; MM; DD]
  ∧ time_parts t "Hour" = [Y; MM; DD; hh]
  ∧ time_parts t "Minute" = [Y; MM; DD; hh; mm]
  ∧ time_parts t "Second" = [Y; MM; DD; hh; mm; ss].
Proof. repeat split; reflexivity. Qed.

(** C4, as the code has it. The year is written as a plain decimal
    numeral, which has four digits from the year 1000 on; month, day,
    hour, minute and second are written with two digits. The flat layout
    gives one name per granularity, each level from the hour on appended
    to the one before; the nested layout gives the list of segments. The
    decade is [year - year mod 10] followed by [s]. *)
Theorem time_classification_spec (t : datetime) :
  valid_datetime t = true →
  let Y := PyStr.of_nat (year t) in
  let decade := PyStr.of_nat (year t - year t mod 10) +:+ "s" in
  let MM := two_digits (month t) in
  let DD := two_digits (day t) in
  let hh := two_digits (hour t) +:+ "h" in
  let mm := two_digits (minute t) +:+ "m" in
  let ss := two_digits (second t) +:+ "s" in
  (decimal_value Y = year t ∧ (1000 ≤ year t → Y = four_digits (year t)))
  ∧ time_flat_name t "Decade" = decade
  ∧ time_flat_name t "Year" = Y
  ∧ time_flat_name t "Month" = Y +:+ "-" +:+ MM
  ∧ time_flat_name t "Day" = Y +:+ "-" +:+ MM +:+ "-" +:+ DD
  ∧ time_flat_name t "Hour" = time_flat_name t "Day" +:+ "_" +:+ hh
  ∧ time_flat_name t "Minute" = time_flat_name t "Hour" +:+ mm
  ∧ time_flat_name t "Second" = time_flat_name t "Minute" +:+ ss
  ∧ time_parts t "Decade" = [decade]
  ∧ time_parts t "Year" = [Y]
  ∧ time_parts t "Month" = [Y; MM]
  ∧ time_parts t "Day" = [Y; MM; DD]
  ∧ time_parts t "Hour" = [Y; MM; DD; hh]
  ∧ time_parts t "Minute" = [Y; MM; DD; hh; mm]
  ∧ time_parts t "Second" = [Y; MM; DD; hh; mm; ss].
Proof.
  intros (Hy & Hm & Hd & Hh & Hmi & Hs)%valid_datetime_bounds.
  destruct (time_flat_name_cases t) as (F1 & F2 & F3 & F4 & F5 & F6 & F7).
  destruct (time_parts_cases t) as (P1 & P2 & P3 & P4 & P5 & P6 & P7).
  cbv zeta in *.
  rewrite F1, F2, F3, F4, F5, F6, F7, P1, P2, P3, P4, P5, P6, P7.
  rewrite decade_arith, !pad2_two_digits by lia.
  rewrite !string_app_assoc.
  split; [split; [apply of_nat_value|intros; apply of_nat_four_digits; lia]|].
  repeat split.
Qed.

Lemma time_classification_spec_witness :
  time_flat_name (DateTime 2024 3 7 9 5 1) "Month" = "2024-03"
  ∧ time_parts (DateTime 2024 3 7 9 5 1) "Day" = ["2024"; "03"; "07"]
  ∧ time_flat_name (DateTime 2025 3 7 9 5 1) "Decade" = "2020s".
Proof.
  pose proof (time_classification_spec (DateTime 2024 3 7 9 5 1) eq_refl) as H1.
  pose proof (time_classification_spec (DateTime 2025 3 7 9 5 1) eq_refl) as H2.
  cbv zeta in H1, H2.
  destruct H1 as (_ & _ & _ & Hmonth & _ & _ & _ & _ & _ & _ & _ & Hday & _).
  destruct H2 as (_ & Hdecade & _).
  rewrite Hmonth, Hday, Hdecade. repeat split; vm_compute; reflexivity.
Defined.

(** C4, as the spec states it, fails for the years before 1000: the
    year is not padded to four digits. *)
Lemma year_is_not_padded :
  ¬ (∀ t, valid_datetime t = true →
          String.length (time_flat_name t "Year") = 4
          ∧ ∃ y rest, time_parts t "Month" = y :: rest ∧ String.length y = 4).
Proof.
  intros H. destruct (H (DateTime 999 3 7 9 5 1) eq_refl) as [Hlen _].
  vm_compute in Hlen. discriminate Hlen.
Qed.

(** ** History file *)

Lemma pop_snoc (s : stack) (b : batch) : pop (s ++ [b]) = Some (s, b).
Proof. unfold pop. by rewrite reverse_snoc, reverse_involutive. Qed.

Lemma pop_nil : pop [] = None.
Proof. done. Qed.

Lemma pop_None s : pop s = None → s = [].
Proof.
  destruct s as [|b s _] using rev_ind; [done|]. by rewrite pop_snoc.
Qed.

Lemma load_history_fs e st : st_fs (_load_history_stack e st).2 = st_fs st.
Proof.
  unfold _load_history_stack.
  destruct (st_fs st !! history_file e) as [[|mt []]|]; reflexivity.
Qed.

Lemma load_history_stored e st :
  (_load_history_stack e st).1 = stored_stack e (st_fs st).
Proof.
  unfold stored_stack, _load_history_stack. simpl.
  destruct (st_fs st !! history_file e) as [[|mt []]|]; reflexivity.
Qed.

(** Where the history path can be examined, loading returns a stack and
    leaves the file system alone, whatever is at the path. A missing
    file gives the empty stack, and so does a file that is not JSON or
    whose JSON is not an array; only a JSON array is returned as the
    stack. *)
Theorem load_history_stack_total (e : engine) (st : state) :
  let found := st_fs st !! history_file e in
  let loaded := _load_history_stack e st in
  st_fs loaded.2 = st_fs st
  ∧ (found = None → loaded = ([], st))
  ∧ (∀ mt id, found = Some (File mt (Text id)) → loaded = ([], st))
  ∧ (∀ mt id, found = Some (File mt (JsonOther id)) → loaded = ([], st))
  ∧ (∀ mt s, found = Some (File mt (JsonStack s)) → loaded = (s, st))
  ∧ ((∀ mt s, found ≠ Some (File mt (JsonStack s))) → loaded.1 = []).
Proof.
  simpl. split; [apply load_history_fs|].
  unfold _load_history_stack.
  split; [by intros ->|]. split; [by intros mt id ->|].
  split; [by intros mt id ->|]. split; [by intros mt s ->|].
  intros H. destruct (st_fs st !! history_file e) as [[|mt []]|]; try done.
  by destruct (H mt s).
Qed.

(** C7 fails on the code. [self.history_file.exists()] comes before the
    [try]: when the process may not search the source directory the
    [stat] behind it is refused, [exists] raises the error instead of
    answering, and the error leaves [_load_history_stack]. The errors
    that [exists] swallows give the empty stack, and where the path can
    be examined the call returns what [_load_history_stack] tells. *)
Theorem load_history_stack_raises (e : engine) (st : state) :
  _load_history_stack_stat (Some EACCES) e st = inl (OSError EACCES)
  ∧ _load_history_stack_stat (Some ENOENT) e st = inr ([], st)
  ∧ _load_history_stack_stat None e st = inr (_load_history_stack e st).
Proof. done. Qed.

(** C9. When the batch on top of the stored stack is empty, undo
    returns 0 at once: nothing but the opening log record is emitted,
    the file system is untouched, and the stored stack still ends with
    the empty batch. *)
Theorem undo_empty_top_batch (e : engine) (st : state) (mt : option datetime)
    (s : stack) :
  st_fs st !! history_file e = Some (File mt (JsonStack (s ++ [[]]))) →
  undo_organization e st = (0, emit EvUndoStart st)
  ∧ st_fs (undo_organization e st).2 = st_fs st
  ∧ stored_stack e (st_fs (undo_organization e st).2) = s ++ [[]].
Proof.
  intros Hfile.
  assert (undo_organization e st = (0, emit EvUndoStart st)) as ->.
  { unfold undo_organization, _load_history_stack. simpl. rewrite Hfile.
    by rewrite pop_snoc. }
  repeat split. unfold stored_stack, _load_history_stack. simpl. by rewrite Hfile.
Qed.

Lemma undo_empty_top_batch_witness :
  undo_organization (demo id) (State stale_history [])
  = (0, emit EvUndoStart (State stale_history []))
  ∧ stored_stack (demo id) stale_history = [[]].
Proof.
  destruct (undo_empty_top_batch (demo id) (State stale_history []) None [])
    as (Hrun & _ & Hstack); [vm_compute; reflexivity|].
  split; [exact Hrun|]. vm_compute. reflexivity.
Defined.

(** ** Progress callback *)

Lemma percentage_unfold i t :
  percentage i (S t) = (Z.of_nat i * 1 * 100 # Pos.of_succ_nat t * 1)%Q.
Proof. reflexivity. Qed.

Lemma percentage_range i total :
  1 ≤ i ≤ total → (0 < percentage i total)%Q ∧ (percentage i total <= 100)%Q.
Proof.
  intros Hi. destruct total as [|t]; [lia|]. rewrite percentage_unfold.
  unfold Qlt, Qle. simpl. rewrite Pos.mul_1_r. split; [lia|].
  rewrite Zpos_P_of_succ_nat. lia.
Qed.

Lemma percentage_mono i j total :
  0 < total → i < j → (percentage i total < percentage j total)%Q.
Proof.
  intros Ht Hij. destruct total as [|t]; [lia|]. rewrite !percentage_unfold.
  unfold Qlt. simpl. rewrite Pos.mul_1_r. nia.
Qed.

Lemma progress_events_app out1 out2 :
  progress_events (out1 ++ out2) = progress_events out1 ++ progress_events out2.
Proof. apply omap_app. Qed.

Lemma progress_emit ev st :
  progress_events (st_out (emit ev st))
  = progress_events (st_out st) ++ progress_events [ev].
Proof. apply progress_events_app. Qed.

Ltac trace_simpl :=
  repeat first [rewrite progress_emit | rewrite progress_events_app | progress simpl];
  rewrite ?app_nil_r.

Lemma report_progress_fs e i total st :
  st_fs (_report_progress e i total st) = st_fs st.
Proof. unfold _report_progress. by destruct (_ && _). Qed.

Lemma report_progress_events e i total st :
  progress_events (st_out (_report_progress e i total st))
  = progress_events (st_out st)
    ++ (if progress_callback e && (0 <? total) then [percentage i total] else []).
Proof.
  unfold _report_progress. destruct (_ && _).
  - by rewrite progress_emit.
  - by rewrite app_nil_r.
Qed.

Lemma move_file_progress item dest acc :
  progress_events (st_out (_move_file item dest acc).2.1)
  = progress_events (st_out acc.1).
Proof.
  destruct acc as [st b]. unfold _move_file.
  destruct (FS.mkdir_parents _ _) as [fs1 [q|]]; simpl.
  - destruct (FS.shutil_move _ _ _) as [fs2 [err|]]; simpl;
      rewrite progress_events_app; simpl; by rewrite app_nil_r.
  - rewrite progress_events_app. simpl. by rewrite app_nil_r.
Qed.

Lemma organize_step_progress e mode gran km nested total acc i item :
  progress_events
    (st_out (organize_step e mode gran km nested total acc (i, item)).1)
  = progress_events (st_out acc.1)
    ++ (if progress_callback e && (0 <? total) then [percentage (i + 1) total] else []).
Proof.
  unfold organize_step. simpl. rewrite report_progress_events. f_equal.
  destruct (classify _ _ _ _ _ _ _); simpl; [done| |apply move_file_progress].
  by trace_simpl.
Qed.

(** Folding a step that reports once per item reports once per item. *)
Lemma fold_progress {A B} (step : A → nat * B → A) (view : A → state) e total :
  (∀ acc i x,
     progress_events (st_out (view (step acc (i, x))))
     = progress_events (st_out (view acc))
       ++ (if progress_callback e && (0 <? total) then [percentage (i + 1) total] else [])) →
  ∀ (l : list B) k acc,
    progress_events (st_out (view (foldl step acc (zip (seq k (length l)) l))))
    = progress_events (st_out (view acc))
      ++ (if progress_callback e && (0 <? total)
          then map (λ i, percentage i total) (seq (S k) (length l)) else []).
Proof.
  intros Hstep l. induction l as [|x l IH]; intros k acc; simpl.
  - destruct (_ && _); by rewrite app_nil_r.
  - rewrite IH, Hstep, <- app_assoc. f_equal.
    destruct (_ && _); [|done]. simpl. by rewrite Nat.add_1_r.
Qed.

Lemma cleanup_walk_progress e chain st :
  progress_events (st_out (cleanup_walk e chain st)) = progress_events (st_out st).
Proof.
  revert st. induction chain as [|p chain IH]; intros st; simpl; [done|].
  repeat case_match; rewrite ?IH; by trace_simpl.
Qed.

Lemma cleanup_folders_progress e folders st :
  progress_events (st_out (cleanup_folders e folders st)) = progress_events (st_out st).
Proof.
  unfold cleanup_folders. generalize (sorted_by_depth (set_order e folders)).
  intros l. revert st. induction l as [|p l IH]; intros st; simpl; [done|].
  by rewrite IH, cleanup_walk_progress.
Qed.

Lemma persist_history_progress e s st :
  progress_events (st_out (persist_history e s st)) = progress_events (st_out st).
Proof.
  unfold persist_history.
  repeat case_match; by trace_simpl.
Qed.

Lemma load_history_progress e st :
  progress_events (st_out (_load_history_stack e st).2) = progress_events (st_out st).
Proof. unfold _load_history_stack. repeat case_match; by trace_simpl. Qed.

Lemma save_history_progress e b st :
  progress_events (st_out (save_history e b st)) = progress_events (st_out st).
Proof.
  unfold save_history.
  pose proof (load_history_progress e st) as Hload.
  destruct (_load_history_stack e st) as [s st1]. simpl in Hload.
  destruct (FS.write_file _ _ _ _); trace_simpl; done.
Qed.

Lemma undo_step_progress e total acc i r :
  progress_events (st_out (undo_step e total acc (i, r)).1.1)
  = progress_events (st_out acc.1.1)
    ++ (if progress_callback e && (0 <? total) then [percentage (i + 1) total] else []).
Proof.
  destruct acc as [[st folders] n], r as [source dest]. unfold undo_step.
  destruct (FS.shutil_move _ _ _) as [fs' [[]|]]; simpl;
    rewrite report_progress_events; by trace_simpl.
Qed.

Lemma assign_keys_progress keys folder acc :
  progress_events (assign_keys keys folder acc).2 = progress_events acc.2.
Proof.
  revert acc. induction keys as [|k keys IH]; intros acc; simpl; [done|].
  rewrite IH. simpl. destruct (PyDict.get _ _); [|done].
  rewrite progress_events_app. simpl. by rewrite app_nil_r.
Qed.

Lemma build_groups_progress i groups folder_names acc km w :
  build_groups i groups folder_names acc = inr (km, w) →
  progress_events w = progress_events acc.2.
Proof.
  revert i acc. induction groups as [|g groups IH]; intros i acc; simpl.
  - by intros [= ->].
  - destruct (folder_names !! i); [|done]. intros H.
    by rewrite (IH _ _ H), assign_keys_progress.
Qed.

Lemma build_keyword_map_progress kr fr km w :
  _build_keyword_map kr fr = inr (km, w) → progress_events w = [].
Proof.
  unfold _build_keyword_map. repeat case_match; try done.
  apply build_groups_progress.
Qed.

Lemma expected_progress_length n : length (expected_progress n) = n.
Proof. unfold expected_progress. by rewrite length_map, length_seq. Qed.

Lemma expected_progress_range n :
  Forall (λ q, (0 < q)%Q ∧ (q <= 100)%Q) (expected_progress n).
Proof.
  unfold expected_progress. apply Forall_fmap, Forall_seq.
  intros i Hi. apply percentage_range. lia.
Qed.

Lemma percentages_sorted total k m :
  0 < total → StronglySorted Qlt (map (λ i, percentage i total) (seq k m)).
Proof.
  intros Ht. revert k. induction m as [|m IH]; intros k; simpl; constructor; [apply IH|].
  apply Forall_fmap, Forall_seq. intros i Hi. apply percentage_mono; lia.
Qed.

Lemma expected_progress_sorted n : StronglySorted Qlt (expected_progress n).
Proof.
  destruct n as [|n]; [constructor|]. apply percentages_sorted. lia.
Qed.

Lemma progress_if_total (cb : bool) total k :
  (if cb && (0 <? total) then map (λ i, percentage i total) (seq k total) else [])
  = if cb then map (λ i, percentage i total) (seq k total) else [].
Proof. destruct cb; [|done]. by destruct total. Qed.

(** C8. With a callback, a call of [organize_files] that does not raise
    hands it one percentage after each file to process, whatever became
    of the file, and [undo_organization] one after each record of the
    batch it pops; the percentages lie in (0, 100] and increase strictly,
    and there is none when there is nothing to process. Percentages are
    the exact quotients, not their floating-point roundings. *)
Theorem progress_callback_contract (e : engine)
    (sort_mode granularity keyword_rules folder_rules : string) (nested : bool)
    (st : state) :
  let run := organize_files e sort_mode granularity keyword_rules folder_rules nested st in
  let total := length (files_to_process e (st_fs st)) in
  let undo := undo_organization e st in
  let records := length (default [] (last (stored_stack e (st_fs st)))) in
  progress_events (st_out run.2)
  = progress_events (st_out st)
    ++ (if progress_callback e
        then match run.1 with inr _ => expected_progress total | inl _ => [] end
        else [])
  ∧ progress_events (st_out undo.2)
    = progress_events (st_out st)
      ++ (if progress_callback e then expected_progress records else [])
  ∧ (∀ n, length (expected_progress n) = n
          ∧ Forall (λ q, (0 < q)%Q ∧ (q <= 100)%Q) (expected_progress n)
          ∧ StronglySorted Qlt (expected_progress n))
  ∧ expected_progress 0 = [].
Proof.
  simpl. repeat split;
    [| |apply expected_progress_length|apply expected_progress_range
     |apply expected_progress_sorted].
  - (* organize *)
    unfold organize_files.
    set (rules := if String.eqb sort_mode "By Keyword" then _ else _).
    assert (Hrules : ∀ km w, rules = inr (km, w) → progress_events w = []).
    { subst rules. intros km w. destruct (String.eqb _ _); [|by intros [= <- <-]].
      destruct (_build_keyword_map _ _) as [|[km' w']] eqn:E; [done|].
      destruct km'; [done|]. intros [= <- <-]. eapply build_keyword_map_progress, E. }
    destruct rules as [x|[km w]].
    { trace_simpl. destruct (progress_callback e); by rewrite ?app_nil_r. }
    specialize (Hrules _ _ eq_refl).
    unfold emit. cbn [st_fs st_out].
    destruct (negb _).
    { cbn [fst snd st_out]. rewrite !progress_events_app, Hrules. trace_simpl.
      destruct (progress_callback e); by rewrite ?app_nil_r. }
    set (files := files_to_process e (st_fs st)).
    destruct (length files =? 0) eqn:Hlen.
    { apply Nat.eqb_eq in Hlen. rewrite Hlen. cbn [fst snd st_out].
      rewrite !progress_events_app, Hrules. trace_simpl.
      destruct (progress_callback e); by rewrite ?app_nil_r. }
    destruct (foldl _ _ _) as [st' b] eqn:Hfold.
    assert (progress_events (st_out st')
            = progress_events (st_out st)
              ++ (if progress_callback e then expected_progress (length files) else []))
      as Hst'.
    { change st' with (st', b).1. rewrite <- Hfold. unfold enumerate.
      rewrite (fold_progress _ fst e (length files)
                 (organize_step_progress e _ _ _ _ _)).
      cbn [fst snd st_out]. rewrite !progress_events_app, Hrules. trace_simpl.
      f_equal. apply progress_if_total. }
    cbn [fst snd st_out]. rewrite progress_events_app.
    change (progress_events [EvComplete _]) with (@nil Q). rewrite app_nil_r.
    destruct b; [done|]. by rewrite save_history_progress.
  - (* undo *)
    unfold undo_organization.
    pose proof (load_history_progress e (emit EvUndoStart st)) as Hload.
    pose proof (load_history_stored e (emit EvUndoStart st)) as Hstack.
    destruct (_load_history_stack e (emit EvUndoStart st)) as [s st1].
    cbn [fst snd] in Hload, Hstack. subst s.
    rewrite progress_emit in Hload.
    change (progress_events [EvUndoStart]) with (@nil Q) in Hload.
    rewrite app_nil_r in Hload.
    change (st_fs (emit EvUndoStart st)) with (st_fs st).
    destruct (stored_stack e (st_fs st)) as [|b s _] using rev_ind.
    { rewrite pop_nil. trace_simpl. rewrite Hload. destruct (progress_callback e); by rewrite ?app_nil_r. }
    rewrite pop_snoc, last_snoc. change (default [] (Some b)) with b.
    destruct (length b =? 0) eqn:Hlen.
    { apply Nat.eqb_eq in Hlen. cbn [snd]. rewrite Hlen, Hload.
      destruct (progress_callback e); by rewrite ?app_nil_r. }
    destruct (foldl _ _ _) as [[st' folders] n] eqn:Hfold. cbn [snd].
    rewrite persist_history_progress, cleanup_folders_progress.
    change st' with (st', folders, n).1.1. rewrite <- Hfold. unfold enumerate.
    rewrite (fold_progress _ (λ acc, acc.1.1) e (length b) (undo_step_progress e _)).
    cbn [fst]. rewrite Hload, length_reverse. f_equal. apply progress_if_total.
Qed.

(** ** File-system calls *)

Lemma parent_snoc (p : path) n : FS.parent (p ++ [n]) = p.
Proof. apply removelast_last. Qed.

Lemma name_snoc (p : path) n : FS.name (p ++ [n]) = n.
Proof. apply last_last. Qed.

Lemma path_snoc_inv (p : path) : p ≠ [] → p = FS.parent p ++ [FS.name p].
Proof. intros Hp. by apply app_removelast_last. Qed.

Lemma child_of_snoc (d : path) n : FS.child_of d (d ++ [n]).
Proof. split; [by destruct d|apply parent_snoc]. Qed.

Lemma child_of_inv d p : FS.child_of d p → p = d ++ [FS.name p].
Proof. intros [Hp <-]. by apply path_snoc_inv. Qed.

Lemma is_dir_lookup fs p : FS.is_dir fs p = true ↔ fs !! p = Some Dir.
Proof. unfold FS.is_dir. destruct (fs !! p) as [[]|]; naive_solver. Qed.

Lemma is_dir_false_file fs p m c : fs !! p = Some (File m c) → FS.is_dir fs p = false.
Proof. unfold FS.is_dir. by intros ->. Qed.

Lemma is_dir_false_None fs p : fs !! p = None → FS.is_dir fs p = false.
Proof. unfold FS.is_dir. by intros ->. Qed.

Lemma wf_root fs : FS.wf fs → fs !! [] = Some Dir.
Proof. by intros [? _]. Qed.

Lemma wf_parent fs p nd : FS.wf fs → fs !! p = Some nd → fs !! FS.parent p = Some Dir.
Proof. intros [_ H] Hp. apply is_dir_lookup. by apply (H p nd). Qed.

(** In a well-formed tree whatever lies above an entry is a directory. *)
Lemma wf_prefix fs p q nd :
  FS.wf fs → fs !! (p ++ q) = Some nd → q ≠ [] → fs !! p = Some Dir.
Proof.
  intros Hwf. revert nd. induction q as [|n q IH] using rev_ind; [done|].
  intros nd Hpq _. rewrite app_assoc in Hpq.
  apply (wf_parent _ _ _ Hwf) in Hpq. rewrite parent_snoc in Hpq.
  destruct q as [|n' q]; [by rewrite app_nil_r in Hpq|]. by apply (IH Dir).
Qed.

Lemma wf_below_missing fs p q : FS.wf fs → fs !! p = None → fs !! (p ++ q) = None.
Proof.
  intros Hwf Hp. destruct (fs !! (p ++ q)) as [nd|] eqn:E; [|done].
  destruct q as [|n q]; [rewrite app_nil_r in E; congruence|].
  apply (wf_prefix _ _ _ _ Hwf) in E; [congruence|done].
Qed.

Lemma wf_below_file fs p q m c :
  FS.wf fs → fs !! p = Some (File m c) → q ≠ [] → fs !! (p ++ q) = None.
Proof.
  intros Hwf Hp Hq. destruct (fs !! (p ++ q)) as [nd|] eqn:E; [|done].
  apply (wf_prefix _ _ _ _ Hwf) in E; [congruence|done].
Qed.

Lemma dir_is_empty_spec fs d :
  FS.dir_is_empty fs d = true ↔ ∀ n, fs !! (d ++ [n]) = None.
Proof.
  unfold FS.dir_is_empty. rewrite bool_decide_eq_true. split.
  - intros H n. destruct (fs !! (d ++ [n])) as [nd|] eqn:E; [|done].
    destruct (H _ _ E). apply child_of_snoc.
  - intros H p nd Hp Hchild. apply child_of_inv in Hchild.
    rewrite Hchild, H in Hp. done.
Qed.

Lemma dir_is_empty_false fs d :
  FS.dir_is_empty fs d = false → ∃ n nd, fs !! (d ++ [n]) = Some nd.
Proof.
  unfold FS.dir_is_empty. intros H%bool_decide_eq_false.
  apply map_not_Forall in H; [|apply _].
  destruct H as (p & nd & Hp & Hchild).
  apply dec_stable in Hchild. apply child_of_inv in Hchild.
  exists (FS.name p), nd. by rewrite <- Hchild.
Qed.

Lemma on_chain_cons pre s segs p :
  on_chain pre (s :: segs) p ↔ p = pre ++ [s] ∨ on_chain (pre ++ [s]) segs p.
Proof.
  unfold on_chain. split.
  - intros (k & Hk & ->). destruct k as [|[|k]]; [lia|by left|].
    right. exists (S k). simpl in *. split; [lia|]. by rewrite <- app_assoc.
  - intros [->|(k & Hk & ->)].
    + exists 1. simpl. split; [lia|done].
    + exists (S k). simpl. split; [lia|]. by rewrite <- app_assoc.
Qed.

Lemma on_chain_length pre segs p : on_chain pre segs p → length pre < length p.
Proof.
  intros (k & Hk & ->). rewrite length_app, length_take. lia.
Qed.

Lemma on_chain_prefix pre segs p : on_chain pre segs p → p `prefix_of` pre ++ segs.
Proof.
  intros (k & Hk & ->). exists (drop k segs).
  by rewrite <- app_assoc, take_drop.
Qed.

Lemma on_chain_last pre segs : segs ≠ [] → on_chain pre segs (pre ++ segs).
Proof.
  intros Hs. exists (length segs). rewrite firstn_all.
  split; [|done]. destruct segs; [done|simpl; lia].
Qed.

Lemma wf_insert_dir fs q :
  FS.wf fs → q ≠ [] → fs !! FS.parent q = Some Dir → FS.wf (<[q := Dir]> fs).
Proof.
  intros [Hroot Hall] Hq Hparent. split.
  - by rewrite lookup_insert_ne.
  - intros p nd Hp. apply is_dir_lookup.
    destruct (decide (FS.parent p = q)) as [->|Hne]; [by rewrite lookup_insert_eq|].
    rewrite lookup_insert_ne by done.
    destruct (decide (p = q)) as [->|Hpq]; [done|].
    rewrite lookup_insert_ne in Hp by done.
    apply is_dir_lookup. by apply (Hall p nd).
Qed.

(** *** Paths with [..] *)

Lemma is_dotdot_ne fs cur s : s ≠ ".." → FS.is_dotdot fs cur s = false.
Proof. intros Hs. unfold FS.is_dotdot. by rewrite bool_decide_eq_false_2. Qed.

Lemma is_dotdot_exists fs cur s nd :
  fs !! (cur ++ [s]) = Some nd → FS.is_dotdot fs cur s = false.
Proof.
  intros H. unfold FS.is_dotdot, FS.exists_. rewrite H. simpl. apply andb_false_r.
Qed.

Lemma is_dotdot_true fs cur s :
  FS.is_dotdot fs cur s = true → s = ".." ∧ fs !! (cur ++ [s]) = None.
Proof.
  unfold FS.is_dotdot, FS.exists_. intros [H1 H2]%andb_true_iff.
  apply bool_decide_eq_true in H1. split; [done|].
  by destruct (fs !! (cur ++ [s])).
Qed.

Lemma is_dotdot_false fs cur s :
  FS.is_dotdot fs cur s = false → s ≠ ".." ∨ is_Some (fs !! (cur ++ [s])).
Proof.
  unfold FS.is_dotdot, FS.exists_. intros [H|H]%andb_false_iff.
  - left. by apply bool_decide_eq_false in H.
  - right. destruct (fs !! (cur ++ [s])); [by eexists|done].
Qed.

Lemma resolve_from_app fs cur p1 p2 :
  FS.resolve_from fs cur (p1 ++ p2)
  = match FS.resolve_from fs cur p1 with
    | inr q => FS.resolve_from fs q p2
    | inl err => inl err
    end.
Proof.
  revert cur. induction p1 as [|s p1 IH]; intros cur; simpl; [done|].
  destruct (FS.is_dotdot fs cur s); [|apply IH].
  destruct (FS.is_dir fs cur); [apply IH|done].
Qed.

(** A path without [..] is where it leads. *)
Lemma resolve_from_plain fs cur p :
  ".." ∉ p → FS.resolve_from fs cur p = inr (cur ++ p).
Proof.
  revert cur. induction p as [|s p IH]; intros cur Hp; simpl.
  - by rewrite app_nil_r.
  - apply not_elem_of_cons in Hp as [Hs Hp].
    rewrite is_dotdot_ne by done. rewrite IH by done. by rewrite <- app_assoc.
Qed.

Lemma resolve_plain fs p : ".." ∉ p → FS.resolve fs p = inr p.
Proof. apply resolve_from_plain. Qed.

(** So is the path of an entry of the tree. *)
Lemma resolve_from_key fs cur p nd :
  FS.wf fs → fs !! (cur ++ p) = Some nd → FS.resolve_from fs cur p = inr (cur ++ p).
Proof.
  intros Hwf. revert cur. induction p as [|s p IH]; intros cur Hp; simpl.
  - by rewrite app_nil_r.
  - replace (cur ++ s :: p) with ((cur ++ [s]) ++ p) in * by (by rewrite <- app_assoc).
    assert (is_Some (fs !! (cur ++ [s]))) as [nd' Hs].
    { destruct p as [|s' p]; [rewrite app_nil_r in Hp; by eexists|].
      exists Dir. by eapply wf_prefix. }
    rewrite (is_dotdot_exists _ _ _ _ Hs). by apply IH.
Qed.

Lemma resolve_key fs p nd : FS.wf fs → fs !! p = Some nd → FS.resolve fs p = inr p.
Proof. intros Hwf Hp. by apply (resolve_from_key fs [] p nd). Qed.

Lemma parent_plain (p : path) : ".." ∉ p → ".." ∉ FS.parent p.
Proof.
  intros Hp Hin. destruct (decide (p = [])) as [->|Hne]; [done|].
  rewrite (path_snoc_inv p Hne) in Hp. apply Hp, elem_of_app. by left.
Qed.

Lemma name_plain (p : path) : p ≠ [] → ".." ∉ p → FS.name p ≠ "..".
Proof.
  intros Hne Hp E. rewrite (path_snoc_inv p Hne) in Hp. apply Hp, elem_of_app.
  right. rewrite E. by left.
Qed.

Lemma locate_plain err fs p : ".." ∉ p → FS.locate err fs p = inr p.
Proof.
  intros Hp. unfold FS.locate. destruct (decide (p = [])) as [->|Hne]; [done|].
  rewrite resolve_plain by (by apply parent_plain).
  rewrite is_dotdot_ne by (by apply name_plain).
  rewrite <- path_snoc_inv by done. by destruct p.
Qed.

Lemma locate_key err fs p nd : FS.wf fs → fs !! p = Some nd → FS.locate err fs p = inr p.
Proof.
  intros Hwf Hp. unfold FS.locate. destruct (decide (p = [])) as [->|Hne]; [done|].
  rewrite (resolve_key fs (FS.parent p) Dir Hwf (wf_parent _ _ _ Hwf Hp)).
  rewrite (is_dotdot_exists _ _ _ nd) by (by rewrite <- path_snoc_inv).
  rewrite <- path_snoc_inv by done. by destruct p.
Qed.

Lemma resolve_snoc fs d n q :
  FS.resolve fs d = inr q →
  FS.resolve fs (d ++ [n])
  = if FS.is_dotdot fs q n then
      if FS.is_dir fs q then inr (FS.parent q) else inl (FS.not_a_directory fs q)
    else inr (q ++ [n]).
Proof.
  intros Hd. unfold FS.resolve in *. rewrite resolve_from_app, Hd. simpl.
  destruct (FS.is_dotdot fs q n); [|done]. by destruct (FS.is_dir fs q).
Qed.

Lemma locate_snoc err fs d n q :
  FS.resolve fs d = inr q →
  FS.locate err fs (d ++ [n])
  = if FS.is_dotdot fs q n then
      if FS.is_dir fs q then inl err else inl (FS.not_a_directory fs q)
    else inr (q ++ [n]).
Proof.
  intros Hd. unfold FS.locate. rewrite parent_snoc, name_snoc, Hd.
  by destruct d.
Qed.

Lemma path_exists_plain fs p : ".." ∉ p → FS.path_exists fs p = FS.exists_ fs p.
Proof. intros Hp. unfold FS.path_exists. by rewrite resolve_plain. Qed.

Lemma path_isdir_plain fs p : ".." ∉ p → FS.path_isdir fs p = FS.is_dir fs p.
Proof. intros Hp. unfold FS.path_isdir. by rewrite resolve_plain. Qed.

Lemma path_dir_is_empty_plain fs p :
  ".." ∉ p → FS.path_dir_is_empty fs p = FS.dir_is_empty fs p.
Proof. intros Hp. unfold FS.path_dir_is_empty. by rewrite resolve_plain. Qed.

Lemma path_rmdir_plain fs p : ".." ∉ p → FS.path_rmdir fs p = FS.rmdir fs p.
Proof. intros Hp. unfold FS.path_rmdir. by rewrite locate_plain. Qed.

Lemma path_rename_plain fs src dst :
  ".." ∉ src → ".." ∉ dst → FS.path_rename fs src dst = FS.os_rename fs src dst.
Proof. intros Hs Hd. unfold FS.path_rename. by rewrite !locate_plain. Qed.

(** *** Making directories *)

(** [mkdir_chain] keeps the tree well formed and only adds directories,
    none of them named [..]; when it succeeds, the directory it gives
    is there and is where the path leads. *)
Lemma mkdir_chain_spec fs pre segs :
  FS.wf fs → fs !! pre = Some Dir →
  let r := FS.mkdir_chain fs pre segs in
  FS.wf r.1 ∧ fs ⊆ r.1
  ∧ (∀ p nd, r.1 !! p = Some nd →
       fs !! p = Some nd ∨ (fs !! p = None ∧ nd = Dir ∧ p ≠ [] ∧ FS.name p ≠ ".."))
  ∧ ∀ q, r.2 = Some q →
      r.1 !! q = Some Dir ∧ FS.resolve_from r.1 pre segs = inr q.
Proof.
  revert fs pre. induction segs as [|s segs IH]; intros fs pre Hwf Hpre; cbn zeta.
  - simpl. split; [done|]. split; [done|]. split; [by left|]. by intros q [= <-].
  - cbn [FS.mkdir_chain FS.resolve_from].
    destruct (FS.is_dotdot fs pre s) eqn:Hdd.
    + apply is_dotdot_true in Hdd as [-> Hnone].
      destruct (IH fs (FS.parent pre) Hwf (wf_parent _ _ _ Hwf Hpre))
        as (Hwf' & Hsub & Hnew & Hq).
      split; [done|]. split; [done|]. split; [done|].
      intros q Hr. destruct (Hq q Hr) as [Hdir Hres]. split; [done|].
      assert (FS.is_dotdot (FS.mkdir_chain fs (FS.parent pre) segs).1 pre ".." = true) as ->.
      { unfold FS.is_dotdot, FS.exists_. rewrite bool_decide_eq_true_2 by done.
        destruct ((FS.mkdir_chain fs (FS.parent pre) segs).1 !! (pre ++ [".."]))
          as [nd|] eqn:E; [|done].
        destruct (Hnew _ _ E) as [?|(_ & _ & _ & Hname)]; [congruence|].
        by rewrite name_snoc in Hname. }
      rewrite (proj2 (is_dir_lookup _ _)); [done|]. by eapply lookup_weaken.
    + destruct (fs !! (pre ++ [s])) as [[|m c]|] eqn:E.
      * destruct (IH fs (pre ++ [s]) Hwf E) as (Hwf' & Hsub & Hnew & Hq).
        split; [done|]. split; [done|]. split; [done|].
        intros q Hr. destruct (Hq q Hr) as [Hdir Hres]. split; [done|].
        rewrite (is_dotdot_exists _ _ _ Dir); [done|]. by eapply lookup_weaken.
      * simpl. split; [done|]. split; [done|]. split; [by left|]. done.
      * assert (s ≠ "..") as Hs.
        { destruct (is_dotdot_false _ _ _ Hdd) as [?|[? ?]]; [done|congruence]. }
        assert (FS.wf (<[pre ++ [s] := Dir]> fs)) as Hwf1.
        { apply wf_insert_dir; [done|by destruct pre|by rewrite parent_snoc]. }
        destruct (IH _ (pre ++ [s]) Hwf1 (lookup_insert_eq _ _ _))
          as (Hwf' & Hsub & Hnew & Hq).
        split; [done|]. split; [etrans; [by apply insert_subseteq|done]|]. split.
        -- intros p nd Hp. destruct (Hnew _ _ Hp) as [Hin|(Hn & -> & ? & ?)].
           ++ destruct (decide (p = pre ++ [s])) as [->|Hne].
              ** rewrite lookup_insert_eq in Hin. right. simplify_eq.
                 split; [done|]. split; [done|]. split; [by destruct pre|].
                 by rewrite name_snoc.
              ** rewrite lookup_insert_ne in Hin by done. by left.
           ++ apply lookup_insert_None in Hn as [? ?]. by right.
        -- intros q Hr. destruct (Hq q Hr) as [Hdir Hres]. split; [done|].
           by rewrite is_dotdot_ne.
Qed.

(** Below a directory that holds nothing, a path without [..] is made
    whole. *)
Lemma mkdir_chain_fresh fs pre segs :
  ".." ∉ segs → (∀ x, x ≠ [] → fs !! (pre ++ x) = None) →
  (FS.mkdir_chain fs pre segs).2 = Some (pre ++ segs).
Proof.
  revert fs pre. induction segs as [|s segs IH]; intros fs pre Hp Hfree; simpl.
  - by rewrite app_nil_r.
  - apply not_elem_of_cons in Hp as [Hs Hp]. rewrite is_dotdot_ne by done.
    rewrite (Hfree [s]) by done.
    rewrite IH; [by rewrite <- app_assoc|done|].
    intros x Hx. rewrite lookup_insert_ne.
    + rewrite <- app_assoc. by apply Hfree.
    + intros E. apply (f_equal length) in E. rewrite !length_app in E.
      destruct x; [done|]. simpl in E. lia.
Qed.

(** On a path without [..] the directory reached is the path, what is
    made lies on the way, and a failure leaves the tree as it was. *)
Lemma mkdir_chain_plain fs pre segs :
  ".." ∉ segs →
  let r := FS.mkdir_chain fs pre segs in
  (∀ q, r.2 = Some q → q = pre ++ segs)
  ∧ (∀ p nd, r.1 !! p = Some nd →
       fs !! p = Some nd ∨ (fs !! p = None ∧ nd = Dir ∧ on_chain pre segs p))
  ∧ (FS.wf fs → r.2 = None → r.1 = fs).
Proof.
  revert fs pre. induction segs as [|s segs IH]; intros fs pre Hp; cbn zeta.
  - simpl. split; [intros q [= <-]; by rewrite app_nil_r|]. split; [by left|done].
  - apply not_elem_of_cons in Hp as [Hs Hp]. cbn [FS.mkdir_chain].
    rewrite is_dotdot_ne by done. setoid_rewrite on_chain_cons.
    destruct (fs !! (pre ++ [s])) as [[|m c]|] eqn:E.
    + destruct (IH fs (pre ++ [s]) Hp) as (Hq & Hnew & Hfail).
      split; [intros q Hr; rewrite (Hq q Hr); by rewrite <- app_assoc|].
      split; [|done].
      intros p nd Hin. destruct (Hnew _ _ Hin) as [?|(?&?&?)]; [by left|right; eauto].
    + simpl. split; [done|]. split; [by left|done].
    + destruct (IH (<[pre ++ [s] := Dir]> fs) (pre ++ [s]) Hp) as (Hq & Hnew & _).
      split; [intros q Hr; rewrite (Hq q Hr); by rewrite <- app_assoc|]. split.
      * intros p nd Hp'. destruct (Hnew _ _ Hp') as [Hin|(Hnone&?&?)].
        -- destruct (decide (p = pre ++ [s])) as [->|Hne].
           ++ rewrite lookup_insert_eq in Hin. right. naive_solver.
           ++ rewrite lookup_insert_ne in Hin by done. by left.
        -- apply lookup_insert_None in Hnone as [? ?]. right. eauto.
      * intros Hwf Hr. rewrite mkdir_chain_fresh in Hr; [done..|].
        intros x Hx. rewrite lookup_insert_ne.
        -- by apply wf_below_missing.
        -- intros E'. apply (f_equal length) in E'. rewrite !length_app in E'.
           destruct x; [done|]. simpl in E'. lia.
Qed.

(** [mkdir_parents], whatever the path: the tree stays well formed and
    only grows, by directories; on success the directory the path leads
    to is there. *)
Lemma mkdir_parents_keeps fs d :
  FS.wf fs →
  let r := FS.mkdir_parents fs d in
  FS.wf r.1 ∧ fs ⊆ r.1
  ∧ (∀ p nd, r.1 !! p = Some nd →
       fs !! p = Some nd ∨ (fs !! p = None ∧ nd = Dir ∧ p ≠ [] ∧ FS.name p ≠ ".."))
  ∧ ∀ q, r.2 = Some q → r.1 !! q = Some Dir ∧ FS.resolve r.1 d = inr q.
Proof.
  intros Hwf. unfold FS.mkdir_parents.
  rewrite (proj2 (is_dir_lookup _ _) (wf_root _ Hwf)).
  apply mkdir_chain_spec; [done|by apply wf_root].
Qed.

(** [mkdir_parents] on a path without [..]: the tree only grows, by
    directories on the way to the target, and the target is a directory
    afterwards. *)
Lemma mkdir_parents_spec fs d fs' q :
  FS.wf fs → ".." ∉ d → FS.mkdir_parents fs d = (fs', Some q) →
  q = d ∧ FS.wf fs' ∧ fs ⊆ fs' ∧ fs' !! d = Some Dir
  ∧ ∀ p nd, fs' !! p = Some nd →
      fs !! p = Some nd ∨ (fs !! p = None ∧ nd = Dir ∧ p ≠ [] ∧ p `prefix_of` d).
Proof.
  intros Hwf Hd Hmk.
  destruct (mkdir_parents_keeps fs d Hwf) as (Hwf' & Hsub & _ & Hq).
  rewrite Hmk in Hwf', Hsub, Hq. cbn [fst snd] in *.
  destruct (Hq q eq_refl) as [Hdir _].
  unfold FS.mkdir_parents in Hmk.
  rewrite (proj2 (is_dir_lookup _ _) (wf_root _ Hwf)) in Hmk.
  destruct (mkdir_chain_plain fs [] d Hd) as (Hq' & Hnew & _).
  rewrite Hmk in Hq', Hnew. cbn [fst snd] in *.
  assert (q = d) as -> by (by apply Hq').
  split; [done|]. split; [done|]. split; [done|]. split; [done|].
  intros p nd Hp. destruct (Hnew _ _ Hp) as [?|(?&?&Hc)]; [by left|].
  right. split; [done|]. split; [done|]. split.
  - apply on_chain_length in Hc. destruct p; [simpl in Hc; lia|done].
  - by apply on_chain_prefix in Hc.
Qed.

Lemma mkdir_parents_failed fs d :
  FS.wf fs → ".." ∉ d → (FS.mkdir_parents fs d).2 = None → (FS.mkdir_parents fs d).1 = fs.
Proof.
  intros Hwf Hd. unfold FS.mkdir_parents.
  destruct (FS.is_dir fs []); [|done].
  destruct (mkdir_chain_plain fs [] d Hd) as (_ & _ & Hfail). by apply Hfail.
Qed.

Lemma mkdir_parents_existing fs d fs' q nd :
  FS.wf fs → ".." ∉ d → fs !! d = Some nd → FS.mkdir_parents fs d = (fs', Some q) →
  fs' = fs.
Proof.
  intros Hwf Hplain Hd H.
  destruct (mkdir_parents_spec _ _ _ _ Hwf Hplain H) as (_ & _ & Hsub & _ & Hnew).
  apply map_eq. intros p. destruct (fs' !! p) as [x|] eqn:Hp.
  - destruct (Hnew _ _ Hp) as [?|(Hnone & _ & _ & [r ->])]; [done|].
    destruct r as [|n r]; [rewrite app_nil_r in Hd; congruence|].
    apply (wf_prefix _ _ _ _ Hwf) in Hd; [congruence|done].
  - symmetry. by eapply lookup_weaken_None.
Qed.

(** *** Moving a file *)

Lemma wf_rename_file fs src dst m c :
  FS.wf fs → fs !! src = Some (File m c) → fs !! FS.parent dst = Some Dir →
  FS.is_dir fs dst = false →
  FS.wf (<[dst := File m c]> (delete src fs)).
Proof.
  intros Hwf Hsrc Hparent Hdst. pose proof (wf_root _ Hwf) as Hroot.
  assert (∀ p, fs !! p = Some Dir → p ≠ src ∧ p ≠ dst) as Hdir.
  { intros p Hp. split; intros ->; [congruence|].
    apply is_dir_lookup in Hp. congruence. }
  assert (∀ p, fs !! p = Some Dir →
               <[dst := File m c]> (delete src fs) !! p = Some Dir) as Hkeep.
  { intros p Hp. destruct (Hdir _ Hp).
    by rewrite lookup_insert_ne, lookup_delete_ne. }
  split; [by apply Hkeep|].
  intros p nd Hp. apply is_dir_lookup, Hkeep.
  destruct (decide (p = dst)) as [->|Hne]; [done|].
  rewrite lookup_insert_ne in Hp by done.
  apply lookup_delete_Some in Hp as [_ Hp]. by eapply wf_parent.
Qed.

Lemma snoc2 (q : path) n : q ++ [n; n] = (q ++ [n]) ++ [n].
Proof. by rewrite <- app_assoc. Qed.

(** Moving a regular file of the tree with [shutil.move] to its own
    name under the directory that [d] leads to: when the call raises
    nothing has changed; otherwise the file lands on the target, or
    inside it when the target is a directory. *)
Lemma shutil_move_file fs src d q m c :
  FS.wf fs → fs !! src = Some (File m c) →
  FS.resolve fs d = inr q → fs !! q = Some Dir →
  let n := FS.name src in
  match FS.shutil_move fs src (d ++ [n]) with
  | (fs', Some _) =>
      fs' = fs
      ∧ (n ≠ ".." → fs !! (q ++ [n]) = Some Dir ∧ is_Some (fs !! (q ++ [n; n])))
  | (fs', None) =>
      (src = q ++ [n] ∧ fs' = fs)
      ∨ ∃ real,
          ((real = q ++ [n] ∧ FS.is_dir fs real = false)
           ∨ (real = q ++ [n; n] ∧ fs !! (q ++ [n]) = Some Dir ∧ fs !! real = None))
          ∧ real ≠ src
          ∧ fs' = <[real := File m c]> (delete src fs)
  end.
Proof.
  intros Hwf Hsrc Hd Hq n. pose proof (wf_root _ Hwf) as Hroot.
  assert (src ≠ []) as Hsrc0 by (intros ->; congruence).
  assert (FS.locate EBUSY fs src = inr src) as Hloc by (by eapply locate_key).
  assert (FS.path_isdir fs src = false) as Hsrcdir.
  { unfold FS.path_isdir. rewrite (resolve_key _ _ _ Hwf Hsrc).
    by eapply is_dir_false_file. }
  assert (∀ x, fs !! x = Some Dir → FS.samefile fs src x = false) as Hsame.
  { intros x Hx. unfold FS.samefile.
    rewrite (resolve_key _ _ _ Hwf Hsrc), (resolve_key _ _ _ Hwf Hx).
    rewrite bool_decide_eq_false_2; [done|]. intros E. rewrite E in Hsrc. congruence. }
  assert (FS.is_dir fs q = true) as Hqd by (by apply is_dir_lookup).
  unfold FS.shutil_move. fold n.
  pose proof (resolve_snoc fs d n q Hd) as Hdst. rewrite Hqd in Hdst.
  pose proof (locate_snoc EBUSY fs d n q Hd) as Hldst. rewrite Hqd in Hldst.
  destruct (FS.is_dotdot fs q n) eqn:Hdd.
  - (* the name is [..] and leads up *)
    apply is_dotdot_true in Hdd as [Hn _].
    pose proof (wf_parent _ _ _ Hwf Hq) as Hpq.
    assert (FS.path_isdir fs (d ++ [n]) = true) as ->.
    { unfold FS.path_isdir. rewrite Hdst. by apply is_dir_lookup. }
    assert (FS.samefile fs src (d ++ [n]) = false) as ->.
    { unfold FS.samefile. rewrite (resolve_key _ _ _ Hwf Hsrc), Hdst.
      rewrite bool_decide_eq_false_2; [done|]. intros E. rewrite E in Hsrc. congruence. }
    assert (FS.path_exists fs ((d ++ [n]) ++ [n]) = true) as ->.
    { unfold FS.path_exists. rewrite (resolve_snoc fs (d ++ [n]) n _ Hdst).
      rewrite (proj2 (is_dir_lookup _ _) Hpq).
      destruct (FS.is_dotdot fs (FS.parent q) n) eqn:Hdd'.
      - unfold FS.exists_. by rewrite (wf_parent _ _ _ Hwf Hpq).
      - destruct (is_dotdot_false _ _ _ Hdd') as [?|[x Hx]]; [done|].
        unfold FS.exists_. by rewrite Hx. }
    simpl. split; [done|]. intros Hne. done.
  - destruct (FS.is_dir fs (q ++ [n])) eqn:Hdir.
    + (* the target is a directory *)
      apply is_dir_lookup in Hdir.
      assert (FS.path_isdir fs (d ++ [n]) = true) as ->.
      { unfold FS.path_isdir. rewrite Hdst. by apply is_dir_lookup. }
      assert (FS.samefile fs src (d ++ [n]) = false) as ->.
      { unfold FS.samefile. rewrite (resolve_key _ _ _ Hwf Hsrc), Hdst.
        rewrite bool_decide_eq_false_2; [done|]. intros E. rewrite E in Hsrc. congruence. }
      cbn [andb].
      pose proof (resolve_snoc fs (d ++ [n]) n _ Hdst) as Hreal.
      pose proof (locate_snoc EBUSY fs (d ++ [n]) n _ Hdst) as Hlreal.
      rewrite (proj2 (is_dir_lookup _ _) Hdir) in Hreal, Hlreal.
      destruct (FS.is_dotdot fs (q ++ [n]) n) eqn:Hdd'.
      { apply is_dotdot_true in Hdd' as [Hn _].
        assert (FS.path_exists fs ((d ++ [n]) ++ [n]) = true) as ->.
        { unfold FS.path_exists. rewrite Hreal, parent_snoc.
          unfold FS.exists_. by rewrite Hq. }
        split; [done|]. by intros ?. }
      unfold FS.path_exists. rewrite Hreal. unfold FS.exists_.
      destruct (fs !! ((q ++ [n]) ++ [n])) as [nd|] eqn:Hr.
      { split; [done|]. intros _. split; [done|]. rewrite snoc2, Hr. by eexists. }
      unfold FS.path_rename. rewrite Hloc, Hlreal. unfold FS.os_rename.
      rewrite Hsrc.
      assert (src ≠ (q ++ [n]) ++ [n]) as Hne by (intros E; rewrite <- E in Hr; congruence).
      rewrite (bool_decide_eq_false_2 _ Hne), (bool_decide_eq_false_2 _ Hsrc0).
      rewrite parent_snoc, Hdir, Hr.
      right. exists ((q ++ [n]) ++ [n]). rewrite snoc2.
      split; [by right|]. split; [congruence|done].
    + (* the target is free or a regular file *)
      assert (FS.path_isdir fs (d ++ [n]) = false) as ->.
      { unfold FS.path_isdir. by rewrite Hdst. }
      cbn [andb]. unfold FS.path_rename. rewrite Hloc, Hldst. unfold FS.os_rename.
      rewrite Hsrc.
      destruct (decide (src = q ++ [n])) as [E|Hne].
      { rewrite bool_decide_eq_true_2 by done. by left. }
      rewrite (bool_decide_eq_false_2 _ Hne), (bool_decide_eq_false_2 _ Hsrc0).
      rewrite parent_snoc, Hq.
      assert (match fs !! (q ++ [n]) with
              | Some Dir => inl EISDIR
              | _ => inr (<[q ++ [n] := File m c]> (delete src fs))
              end = inr (<[q ++ [n] := File m c]> (delete src fs))) as ->.
      { apply not_true_iff_false in Hdir. rewrite is_dir_lookup in Hdir.
        by destruct (fs !! (q ++ [n])) as [[]|]. }
      right. exists (q ++ [n]). split; [by left|]. split; [congruence|done].
Qed.

(** A move whose source is not there raises and changes nothing. *)
Lemma shutil_move_missing fs src dst :
  FS.path_exists fs src = false →
  ∃ err, FS.shutil_move fs src dst = (fs, Some err).
Proof.
  intros Hsrc. unfold FS.shutil_move.
  assert (FS.samefile fs src dst = false) as ->.
  { unfold FS.samefile, FS.path_exists in *.
    destruct (FS.resolve fs src) as [?|s]; [done|].
    destruct (FS.resolve fs dst); [done|]. rewrite Hsrc. apply andb_false_r. }
  rewrite andb_false_r.
  destruct (FS.path_isdir fs dst && FS.path_exists fs _); [by eexists|].
  assert (FS.path_isdir fs src = false) as ->.
  { unfold FS.path_isdir, FS.path_exists, FS.is_dir, FS.exists_ in *.
    destruct (FS.resolve fs src) as [?|s]; [done|]. by destruct (fs !! s). }
  assert (∀ x, ∃ err, FS.path_rename fs src x = inl err) as Hren.
  { intros x. unfold FS.path_rename.
    destruct (FS.locate EBUSY fs src) as [err|s] eqn:Hloc; [by eexists|].
    assert (fs !! s = None) as Hs.
    { unfold FS.locate in Hloc. destruct (decide (src = [])) as [->|Hne].
      - simplify_eq. unfold FS.path_exists, FS.resolve, FS.exists_ in Hsrc.
        simpl in Hsrc. by destruct (fs !! []).
      - assert (src = FS.parent src ++ [FS.name src]) as E by (by apply path_snoc_inv).
        destruct src as [|x0 src0]; [done|].
        destruct (FS.resolve fs (FS.parent (x0 :: src0))) as [?|rd] eqn:Hrd; [done|].
        destruct (FS.is_dotdot fs rd (FS.name (x0 :: src0))) eqn:Hdd.
        { by destruct (FS.is_dir fs rd). }
        simplify_eq. unfold FS.path_exists in Hsrc.
        rewrite E, (resolve_snoc _ _ _ _ Hrd), Hdd in Hsrc.
        unfold FS.exists_ in Hsrc. by destruct (fs !! _). }
    destruct (FS.locate EBUSY fs x) as [?|d]; [by eexists|].
    unfold FS.os_rename. rewrite Hs. by eexists. }
  destruct (Hren (if FS.path_isdir fs dst then dst ++ [FS.name src] else dst))
    as [err ->].
  by eexists.
Qed.

(** What [_move_file] does with a regular file of the tree, [mk] being
    what making the folder gives: the attempt fails and nothing is
    recorded, or the move is recorded and the file sits below the
    directory the folder leads to, under its name, or inside the
    directory of that name. *)
Lemma move_file_cases item d st b m c :
  FS.wf (st_fs st) → st_fs st !! item = Some (File m c) →
  let mk := FS.mkdir_parents (st_fs st) d in
  let r := (_move_file item d (st, b)).2 in
  let n := FS.name item in
  FS.wf (st_fs r.1)
  ∧ ((st_fs r.1 = mk.1 ∧ r.2 = b
      ∧ (".." ∉ d → n ≠ ".." → st_fs r.1 = st_fs st))
     ∨ (r.2 = b ++ [(item, d ++ [n])]
        ∧ ∃ q, mk.2 = Some q
          ∧ ((st_fs r.1 = mk.1 ∧ q ++ [n] = item)
             ∨ ∃ real,
                 ((real = q ++ [n] ∧ FS.is_dir mk.1 real = false)
                  ∨ (real = q ++ [n; n]
                     ∧ mk.1 !! (q ++ [n]) = Some Dir ∧ mk.1 !! real = None))
                 ∧ real ≠ item
                 ∧ st_fs r.1 = <[real := File m c]> (delete item mk.1)))).
Proof.
  intros Hwf Hitem mk r n. subst mk r. unfold _move_file. fold n.
  destruct (mkdir_parents_keeps (st_fs st) d Hwf) as (Hwf1 & Hsub & Hnew & Hq).
  pose proof (mkdir_parents_failed (st_fs st) d Hwf) as Hfail.
  destruct (FS.mkdir_parents (st_fs st) d) as [fs1 [q|]] eqn:Hmk; cbn [fst snd] in *;
    [|split; [done|left; split; [done|split; [done|]]]; intros Hd _; by apply Hfail].
  destruct (Hq q eq_refl) as [Hqdir Hres].
  assert (fs1 !! item = Some (File m c)) as Hitem1 by (by eapply lookup_weaken).
  pose proof (shutil_move_file fs1 item d q m c Hwf1 Hitem1 Hres Hqdir) as Hmove.
  cbv zeta in Hmove. fold n in Hmove.
  destruct (FS.shutil_move fs1 item (d ++ [n])) as [fs2 [err|]]; cbn [fst snd].
  - destruct Hmove as [-> Hdst]. split; [done|]. left. split; [done|]. split; [done|].
    intros Hd Hn. destruct (Hdst Hn) as [Hdir _].
    destruct (mkdir_parents_spec _ _ _ _ Hwf Hd Hmk) as (-> & _ & _ & _ & Hnew').
    destruct (Hnew' _ _ Hdir) as [Hold|(_ & _ & _ & Hpre)].
    + apply (wf_prefix _ _ _ _ Hwf) in Hold; [|done].
      by eapply mkdir_parents_existing.
    + apply prefix_length in Hpre. rewrite length_app in Hpre. simpl in Hpre. lia.
  - destruct Hmove as [[Hsame ->]|(real & Hreal & Hne & ->)].
    + split; [done|]. right. split; [done|]. exists q. split; [done|]. by left.
    + split.
      * destruct Hreal as [[-> Hnd]|(-> & Hdst & Hnone)].
        -- apply wf_rename_file; [done..|by rewrite parent_snoc|done].
        -- apply wf_rename_file; [done..| |by apply is_dir_false_None].
           by rewrite snoc2, parent_snoc.
      * right. split; [done|]. exists q. split; [done|]. right. by exists real.
Qed.

(** Well-formedness of a concrete tree is checked by evaluation. *)
Lemma wf_check fs : bool_decide (FS.wf fs) = true → FS.wf fs.
Proof. apply bool_decide_eq_true_1. Qed.

(** ** The restore phase of undo *)

Lemma restore_attempts_app out1 out2 :
  restore_attempts (out1 ++ out2) = restore_attempts out1 ++ restore_attempts out2.
Proof. apply omap_app. Qed.

Lemma restore_emit ev st :
  restore_attempts (st_out (emit ev st))
  = restore_attempts (st_out st) ++ restore_attempts [ev].
Proof. apply restore_attempts_app. Qed.

Ltac restore_simpl :=
  repeat first [rewrite restore_emit | rewrite restore_attempts_app | progress simpl];
  rewrite ?app_nil_r.

Lemma report_progress_restore e i total st :
  restore_attempts (st_out (_report_progress e i total st)) = restore_attempts (st_out st).
Proof. unfold _report_progress. destruct (_ && _); by restore_simpl. Qed.

Lemma cleanup_walk_restore e chain st :
  restore_attempts (st_out (cleanup_walk e chain st)) = restore_attempts (st_out st).
Proof.
  revert st. induction chain as [|p chain IH]; intros st; simpl; [done|].
  repeat case_match; rewrite ?IH; by restore_simpl.
Qed.

Lemma cleanup_folders_restore e folders st :
  restore_attempts (st_out (cleanup_folders e folders st)) = restore_attempts (st_out st).
Proof.
  unfold cleanup_folders. generalize (sorted_by_depth (set_order e folders)).
  intros l. revert st. induction l as [|p l IH]; intros st; simpl; [done|].
  by rewrite IH, cleanup_walk_restore.
Qed.

Lemma persist_history_restore e s st :
  restore_attempts (st_out (persist_history e s st)) = restore_attempts (st_out st).
Proof. unfold persist_history. repeat case_match; by restore_simpl. Qed.

Lemma load_history_restore e st :
  restore_attempts (st_out (_load_history_stack e st).2) = restore_attempts (st_out st).
Proof. unfold _load_history_stack. repeat case_match; by restore_simpl. Qed.

(** One more record at the end of the batch is one more record replayed
    first. *)
Lemma restore_last_first_snoc b source dest fs :
  restore_last_first (b ++ [(source, dest)]) fs
  = match FS.shutil_move fs dest source with
    | (fs', None) => ((restore_last_first b fs').1, S (restore_last_first b fs').2)
    | (fs', Some _) => restore_last_first b fs'
    end.
Proof.
  induction b as [|[s d] b IH]; simpl.
  - by destruct (FS.shutil_move fs dest source) as [fs' [err|]].
  - rewrite IH. destruct (FS.shutil_move fs dest source) as [fs' [err|]].
    + done.
    + simpl. destruct (restore_last_first b fs') as [fs1 n]. simpl.
      by destruct (FS.shutil_move fs1 d s) as [fs2 [err|]].
Qed.

Lemma restore_last_first_count b fs : (restore_last_first b fs).2 ≤ length b.
Proof.
  induction b as [|[s d] b IH]; simpl; [done|].
  destruct (restore_last_first b fs) as [fs1 n]. simpl in *.
  destruct (FS.shutil_move fs1 d s) as [fs2 [err|]]; simpl; lia.
Qed.

Lemma undo_step_spec e total st folders n k source dest :
  let r := undo_step e total (st, folders, n) (k, (source, dest)) in
  match FS.shutil_move (st_fs st) dest source with
  | (fs', None) =>
      st_fs r.1.1 = fs' ∧ r.2 = n + 1
      ∧ restore_attempts (st_out r.1.1) = restore_attempts (st_out st) ++ [(dest, true)]
  | (fs', Some _) =>
      st_fs r.1.1 = fs' ∧ r.2 = n
      ∧ restore_attempts (st_out r.1.1) = restore_attempts (st_out st) ++ [(dest, false)]
  end.
Proof.
  unfold undo_step.
  destruct (FS.shutil_move (st_fs st) dest source) as [fs' [[]|]]; cbn [fst snd];
    rewrite report_progress_fs, report_progress_restore; by restore_simpl.
Qed.

(** The restore loop over [l] does what [restore_last_first] tells for
    the batch [reverse l], and records one attempt per record. *)
Lemma undo_fold e total (l : batch) :
  ∀ k st folders n,
    let r := foldl (undo_step e total) (st, folders, n) (zip (seq k (length l)) l) in
    st_fs r.1.1 = (restore_last_first (reverse l) (st_fs st)).1
    ∧ r.2 = n + (restore_last_first (reverse l) (st_fs st)).2
    ∧ ∃ attempts,
        restore_attempts (st_out r.1.1) = restore_attempts (st_out st) ++ attempts
        ∧ attempts.*1 = l.*2
        ∧ length (filter (λ a, a.2 = true) attempts)
          = (restore_last_first (reverse l) (st_fs st)).2.
Proof.
  induction l as [|[source dest] l IH]; intros k st folders n.
  - simpl. split; [done|]. split; [lia|]. exists []. by rewrite app_nil_r.
  - cbn [length seq zip zip_with foldl]. rewrite reverse_cons, restore_last_first_snoc.
    pose proof (undo_step_spec e total st folders n k source dest) as Hstep.
    destruct (undo_step e total (st, folders, n) (k, (source, dest)))
      as [[st1 folders1] n1].
    cbn [fst snd] in Hstep.
    destruct (IH (S k) st1 folders1 n1) as (H1 & H2 & attempts & H3 & H4 & H5).
    destruct (FS.shutil_move (st_fs st) dest source) as [fs' [err|]];
      destruct Hstep as (Hfs & Hn & Hout); rewrite Hfs in *; subst n1.
    + split; [done|]. split; [done|].
      exists ((dest, false) :: attempts). rewrite H3, Hout, <- app_assoc.
      split; [done|]. split; [by rewrite !fmap_cons, H4|].
      rewrite filter_cons_False; [done|]. simpl. congruence.
    + split; [done|]. split; [simpl; lia|].
      exists ((dest, true) :: attempts). rewrite H3, Hout, <- app_assoc.
      split; [done|]. split; [by rewrite !fmap_cons, H4|].
      rewrite filter_cons_True by done. simpl. by rewrite H5.
Qed.

(** Undo replays the popped batch last record first: the trace holds
    one restore attempt per record, in the reverse of the order of the
    batch; an attempt that fails (the destination is missing, or the move
    fails otherwise) changes nothing and the loop goes on; the value
    returned counts the attempts in which [shutil.move] did not raise,
    which need not have put the file on its source (see
    [undo_counts_misplaced_record]). The state the folder cleanup starts
    from is the one [restore_last_first] tells. *)
Theorem undo_replays_in_reverse (e : engine) (st : state) (mt : option datetime)
    (s : stack) (b : batch) :
  st_fs st !! history_file e = Some (File mt (JsonStack (s ++ [b]))) →
  b ≠ [] →
  let run := undo_organization e st in
  let restored := restore_last_first b (st_fs st) in
  (∃ attempts folders out,
     restore_attempts (st_out run.2) = restore_attempts (st_out st) ++ attempts
     ∧ attempts.*1 = (reverse b).*2
     ∧ run.1 = length (filter (λ a, a.2 = true) attempts)
     ∧ run.2 = persist_history e s (cleanup_folders e folders (State restored.1 out)))
  ∧ run.1 = restored.2
  ∧ run.1 ≤ length b
  ∧ (∀ fs source dest, FS.path_exists fs dest = false →
       ∃ err, FS.shutil_move fs dest source = (fs, Some err)).
Proof.
  intros Hfile Hb run restored.
  assert (Hrun : ∃ st1 folders st2 n,
             st_fs st1 = st_fs st
             ∧ restore_attempts (st_out st1) = restore_attempts (st_out st)
             ∧ foldl (undo_step e (length b)) (st1, [], 0) (enumerate (reverse b))
               = (st2, folders, n)
             ∧ run = (n, persist_history e s (cleanup_folders e folders st2))).
  { subst run. unfold undo_organization.
    pose proof (load_history_restore e (emit EvUndoStart st)) as Hout.
    pose proof (load_history_fs e (emit EvUndoStart st)) as Hfs.
    pose proof (load_history_stored e (emit EvUndoStart st)) as Hstack.
    destruct (_load_history_stack e (emit EvUndoStart st)) as [s' st1].
    cbn [fst snd] in *.
    change (st_fs (emit EvUndoStart st)) with (st_fs st) in *.
    rewrite restore_emit in Hout.
    change (restore_attempts [EvUndoStart]) with (@nil (path * bool)) in Hout.
    rewrite app_nil_r in Hout.
    unfold stored_stack, _load_history_stack in Hstack. cbn [st_fs] in Hstack.
    rewrite Hfile in Hstack. cbn [fst] in Hstack. subst s'.
    rewrite pop_snoc.
    destruct (length b =? 0) eqn:Hlen.
    { apply Nat.eqb_eq in Hlen. by destruct b. }
    destruct (foldl _ _ _) as [[st2 folders] n] eqn:Hfold.
    by exists st1, folders, st2, n. }
  destruct Hrun as (st1 & folders & st2 & n & Hfs & Hout & Hfold & ->).
  unfold enumerate in Hfold.
  destruct (undo_fold e (length b) (reverse b) 0 st1 [] 0)
    as (H1 & H2 & attempts & H3 & H4 & H5).
  rewrite Hfold, reverse_involutive, Hfs in *. cbn [fst snd] in *.
  subst restored. split; [|split; [done|split]].
  - exists attempts, folders, (st_out st2). split.
    + by rewrite persist_history_restore, cleanup_folders_restore, H3, Hout.
    + split; [done|]. split; [by rewrite H5, H2|].
      rewrite <- H1. by destruct st2.
  - rewrite H2. apply restore_last_first_count.
  - intros fs source dest Hmissing. by apply shutil_move_missing.
Qed.

Lemma undo_replays_in_reverse_witness :
  (undo_organization (demo id) (State organized_before [])).1 = 1
  ∧ restore_attempts (st_out (undo_organization (demo id) (State organized_before [])).2)
    = [(home ++ ["txt"; "notes.txt"], true)].
Proof.
  destruct (undo_replays_in_reverse (demo id) (State organized_before []) None []
              [(home ++ ["notes.txt"], home ++ ["txt"; "notes.txt"])])
    as (_ & H & _); [vm_compute; reflexivity|done|].
  split; [rewrite H|]; vm_compute; reflexivity.
Defined.

(** ** The main loop of organize *)

Lemma organize_step_cases e mode gran km nested total st b k item m c :
  FS.wf (st_fs st) → st_fs st !! item = Some (File m c) →
  let r := organize_step e mode gran km nested total (st, b) (k, item) in
  let n := FS.name item in
  match classify e mode gran km nested (st_fs st) item with
  | MoveTo d =>
      let mk := FS.mkdir_parents (st_fs st) d in
      FS.wf (st_fs r.1)
      ∧ ((st_fs r.1 = mk.1 ∧ r.2 = b
          ∧ (".." ∉ d → n ≠ ".." → st_fs r.1 = st_fs st))
         ∨ (r.2 = b ++ [(item, d ++ [n])]
            ∧ ∃ q, mk.2 = Some q
              ∧ ((st_fs r.1 = mk.1 ∧ q ++ [n] = item)
                 ∨ ∃ real,
                     ((real = q ++ [n] ∧ FS.is_dir mk.1 real = false)
                      ∨ (real = q ++ [n; n]
                         ∧ mk.1 !! (q ++ [n]) = Some Dir ∧ mk.1 !! real = None))
                     ∧ real ≠ item
                     ∧ st_fs r.1 = <[real := File m c]> (delete item mk.1))))
  | _ => st_fs r.1 = st_fs st ∧ r.2 = b
  end.
Proof.
  intros Hwf Hitem. unfold organize_step. cbn [fst snd].
  destruct (classify e mode gran km nested (st_fs st) item) as [| |d];
    cbn [fst snd]; rewrite report_progress_fs; [done|done|].
  apply (move_file_cases item d st b m c Hwf Hitem).
Qed.

(** The same for a folder without [..]: a failed attempt leaves the
    tree as it was, and the folder is where the file goes. *)
Lemma organize_step_plain e mode gran km nested total st b k item m c d :
  FS.wf (st_fs st) → st_fs st !! item = Some (File m c) →
  classify e mode gran km nested (st_fs st) item = MoveTo d →
  ".." ∉ d → FS.name item ≠ ".." →
  let r := organize_step e mode gran km nested total (st, b) (k, item) in
  FS.wf (st_fs r.1)
  ∧ ((st_fs r.1 = st_fs st ∧ r.2 = b)
     ∨ (r.2 = b ++ [(item, d ++ [FS.name item])]
        ∧ ((st_fs r.1 = st_fs st ∧ d ++ [FS.name item] = item)
           ∨ ∃ fs1 real,
               FS.mkdir_parents (st_fs st) d = (fs1, Some d)
               ∧ ((real = d ++ [FS.name item] ∧ FS.is_dir fs1 real = false)
                  ∨ (real = d ++ [FS.name item; FS.name item]
                     ∧ fs1 !! (d ++ [FS.name item]) = Some Dir
                     ∧ fs1 !! real = None))
               ∧ real ≠ item
               ∧ st_fs r.1 = <[real := File m c]> (delete item fs1)))).
Proof.
  intros Hwf Hitem Hcl Hd Hn.
  pose proof (organize_step_cases e mode gran km nested total st b k item m c Hwf Hitem)
    as Hstep.
  rewrite Hcl in Hstep. cbv zeta in *.
  destruct (FS.mkdir_parents (st_fs st) d) as [fs1 made] eqn:Hmk. cbn [fst snd] in *.
  destruct Hstep as (Hwf1 & [(_ & ? & Hsame)|(Hb & q & -> & Hcase)]).
  { split; [done|]. left. split; [by apply Hsame|done]. }
  destruct (mkdir_parents_spec _ _ _ _ Hwf Hd Hmk) as (-> & _).
  split; [done|]. right. split; [done|].
  destruct Hcase as [[Hfs Hq]|(real & ? & ? & ?)].
  - left. split; [|done]. rewrite Hfs.
    rewrite <- Hq in Hitem. apply (wf_prefix _ _ _ _ Hwf) in Hitem; [|done].
    by eapply mkdir_parents_existing.
  - right. by exists fs1, real.
Qed.

Lemma children_names_spec fs d n :
  n ∈ FS.children_names fs d ↔ is_Some (fs !! (d ++ [n])).
Proof.
  unfold FS.children_names.
  change (map FS.name ?l) with (FS.name <$> l). rewrite list_elem_of_fmap. split.
  - intros (p & -> & [Hc Hp]%list_elem_of_filter).
    apply list_elem_of_fmap in Hp as ([p' nd] & -> & Hp%elem_of_map_to_list).
    simpl in *. rewrite <- (child_of_inv _ _ Hc). by eexists.
  - intros [nd Hn]. exists (d ++ [n]). rewrite name_snoc. split; [done|].
    apply list_elem_of_filter. split; [apply child_of_snoc|].
    apply list_elem_of_fmap. exists (d ++ [n], nd). split; [done|].
    by apply elem_of_map_to_list.
Qed.

Lemma children_names_NoDup fs d : NoDup (FS.children_names fs d).
Proof.
  unfold FS.children_names. change (map FS.name ?l) with (FS.name <$> l).
  apply NoDup_fmap_2_strong.
  - intros p q [Hp _]%list_elem_of_filter [Hq _]%list_elem_of_filter E.
    rewrite (child_of_inv _ _ Hp), (child_of_inv _ _ Hq). by rewrite E.
  - apply NoDup_filter, NoDup_fst_map_to_list.
Qed.

(** The files to process, when the platform lists what the directory
    holds: distinct names of regular files, none of them the engine's
    own. *)
Lemma files_to_process_spec e fs :
  (∀ l, readdir_order e l ≡ₚ l) →
  ∃ names,
    files_to_process e fs = map (λ n, source_directory e ++ [n]) names
    ∧ NoDup names
    ∧ ∀ n, n ∈ names ↔
        FS.is_file fs (source_directory e ++ [n]) = true
        ∧ n ≠ history_name ∧ n ≠ config_name.
Proof.
  intros Hperm. unfold files_to_process. eexists. split; [done|]. split.
  - apply NoDup_filter. unfold iterdir. rewrite Hperm. apply children_names_NoDup.
  - intros n. rewrite list_elem_of_filter. unfold iterdir. rewrite Hperm.
    rewrite children_names_spec, !elem_of_cons, elem_of_nil.
    unfold FS.is_file. destruct (fs !! (source_directory e ++ [n])) as [[]|];
      naive_solver.
Qed.

Lemma snoc_ne_last (p q : path) n n' : n ≠ n' → p ++ [n] ≠ q ++ [n'].
Proof. intros Hn E. apply (f_equal FS.name) in E. rewrite !name_snoc in E. done. Qed.

Lemma snoc2_ne_last (p q : path) n n' : n ≠ n' → p ++ [n] ≠ q ++ [n'; n'].
Proof.
  intros Hn. replace (q ++ [n'; n']) with ((q ++ [n']) ++ [n']) by (by rewrite <- app_assoc).
  by apply snoc_ne_last.
Qed.


(** A call of [organize_files] that returns: the source directory is
    there, and either there was nothing to process or the main loop ran
    over the files and its batch was saved when not empty. *)
Lemma organize_files_inr e mode gran kr fr nested st n st' :
  organize_files e mode gran kr fr nested st = (inr n, st') →
  let files := files_to_process e (st_fs st) in
  st_fs st !! source_directory e = Some Dir
  ∧ ((files = [] ∧ n = 0 ∧ st_fs st' = st_fs st)
     ∨ ∃ st0 st1 b,
         st_fs st0 = st_fs st
         ∧ foldl (organize_step e mode gran (rule_table mode kr fr) nested (length files))
                 (st0, []) (enumerate files) = (st1, b)
         ∧ n = length b
         ∧ st_fs st' = st_fs (if b is [] then st1 else save_history e b st1)).
Proof.
  unfold organize_files, rule_table.
  set (rules := if String.eqb mode "By Keyword" then _ else _).
  assert (∀ km w, rules = inr (km, w) →
            km = if String.eqb mode "By Keyword"
                 then match _build_keyword_map kr fr with
                      | inr (keyword_map, _) => keyword_map
                      | inl _ => []
                      end
                 else []) as Hkm.
  { subst rules. intros km w. destruct (String.eqb mode "By Keyword"); [|by intros [= <- _]].
    destruct (_build_keyword_map kr fr) as [x|[km' w']]; [done|].
    destruct km'; [done|]. by intros [= <- _]. }
  destruct rules as [x|[km w]]; [done|]. rewrite <- (Hkm km w eq_refl). clear Hkm.
  unfold emit. cbn [st_fs st_out].
  destruct (FS.is_dir (st_fs st) (source_directory e)) eqn:Hsd; [|done].
  apply is_dir_lookup in Hsd. cbn [negb].
  destruct (length (files_to_process e (st_fs st)) =? 0) eqn:Hlen.
  { intros [= <- <-]. split; [done|]. left. apply Nat.eqb_eq in Hlen.
    by destruct (files_to_process e (st_fs st)). }
  destruct (foldl _ _ _) as [st1 b] eqn:Hfold.
  intros [= <- <-]. split; [done|]. right.
  refine (ex_intro _ _ (ex_intro _ st1 (ex_intro _ b
            (conj _ (conj Hfold (conj eq_refl _)))))); [reflexivity|by destruct b].
Qed.

Lemma stored_stack_unfold e fs :
  stored_stack e fs
  = match fs !! history_file e with
    | Some (File _ (JsonStack s)) => s
    | _ => []
    end.
Proof.
  unfold stored_stack, _load_history_stack. cbn [st_fs].
  by destruct (fs !! history_file e) as [[|mt []]|].
Qed.

Lemma stored_stack_lookup e fs fs' :
  fs' !! history_file e = fs !! history_file e → stored_stack e fs' = stored_stack e fs.
Proof. rewrite !stored_stack_unfold. by intros ->. Qed.


Lemma stored_stack_written e fs mt s :
  stored_stack e (<[history_file e := File mt (JsonStack s)]> fs) = s.
Proof. by rewrite stored_stack_unfold, lookup_insert_eq. Qed.

(** Saving a batch: the stack read from the history path, with the
    batch on top, is written there, unless the path is a directory. *)
Lemma save_history_spec e b st :
  st_fs st !! source_directory e = Some Dir →
  (st_fs st !! history_file e ≠ Some Dir ∧
   st_fs (save_history e b st)
   = <[history_file e := File (now e) (JsonStack (stored_stack e (st_fs st) ++ [b]))]>
       (st_fs st))
  ∨ (st_fs st !! history_file e = Some Dir ∧ st_fs (save_history e b st) = st_fs st).
Proof.
  intros Hsd. unfold save_history.
  pose proof (load_history_fs e st) as Hfs.
  pose proof (load_history_stored e st) as Hs.
  destruct (_load_history_stack e st) as [s st1]. cbn [fst snd] in *. subst s.
  assert (FS.parent (history_file e) = source_directory e) as Hp by apply parent_snoc.
  unfold FS.write_file. rewrite Hfs, Hp, Hsd.
  destruct (st_fs st !! history_file e) as [[|mt c]|] eqn:Hh.
  - by right.
  - by left.
  - by left.
Qed.

(** ** Depth of the history stack *)

(** An undo that finds a batch with records: the restore loop runs from
    a state with the same files, then the folders are cleaned up and the
    rest of the stack is persisted. *)
Lemma undo_organization_run e st s b :
  stored_stack e (st_fs st) = s ++ [b] → b ≠ [] →
  ∃ st1 folders st2 n,
    st_fs st1 = st_fs st
    ∧ foldl (undo_step e (length b)) (st1, [], 0) (enumerate (reverse b))
      = (st2, folders, n)
    ∧ undo_organization e st
      = (n, persist_history e s (cleanup_folders e folders st2)).
Proof.
  intros Hstack Hb. unfold undo_organization.
  pose proof (load_history_fs e (emit EvUndoStart st)) as Hfs.
  pose proof (load_history_stored e (emit EvUndoStart st)) as Hs.
  destruct (_load_history_stack e (emit EvUndoStart st)) as [s' st1].
  cbn [fst snd] in *. change (st_fs (emit EvUndoStart st)) with (st_fs st) in *.
  rewrite Hstack in Hs. subst s'. rewrite pop_snoc.
  destruct (length b =? 0) eqn:Hlen.
  { apply Nat.eqb_eq in Hlen. by destruct b. }
  destruct (foldl _ _ _) as [[st2 folders] n] eqn:Hfold.
  by exists st1, folders, st2, n.
Qed.






(** ** Organize, then undo *)

Lemma classify_ext e mode gran km nested fs fs' item :
  fs !! item = fs' !! item →
  classify e mode gran km nested fs item = classify e mode gran km nested fs' item.
Proof. unfold classify. by intros ->. Qed.

Lemma prefix_take (p d : path) : p `prefix_of` d → p = take (length p) d.
Proof. intros [q ->]. by rewrite take_app_length. Qed.

Section Organize.
Variables (e : engine) (mode gran : string) (km : PyDict.dict) (nested : bool).
Variables (fs0 : gmap path node) (plan : list (path * path)).
Hypothesis Hwf0 : FS.wf fs0.
Hypothesis Hsd0 : fs0 !! source_directory e = Some Dir.
Hypothesis Hitems : ∀ item d, (item, d) ∈ plan →
  ∃ n, item = source_directory e ++ [n] ∧ n ≠ history_name.
Hypothesis Hclash : clash_free e fs0 plan.

Local Notation sd := (source_directory e).

Lemma clash_free_at item d :
  (item, d) ∈ plan →
  sd `prefix_of` d ∧ length sd < length d
  ∧ FS.is_file fs0 (take (S (length sd)) d) = false
  ∧ take (S (length sd)) d ≠ history_file e
  ∧ FS.is_dir fs0 (d ++ [FS.name item]) = false
  ∧ ∀ item' d', (item', d') ∈ plan → ¬ (d ++ [FS.name item]) `prefix_of` d'.
Proof using Hwf0 Hsd0 Hitems Hclash.
  intros Hin. unfold clash_free in Hclash. rewrite Forall_forall in Hclash.
  destruct (Hclash _ Hin) as (_ & _ & H1 & H2 & H3 & H4 & H5 & H6). simpl in *.
  repeat split; try done. intros item' d' Hin'. rewrite Forall_forall in H6.
  apply (H6 _ Hin').
Qed.

Lemma clash_free_plain item d : (item, d) ∈ plan → ".." ∉ item ∧ ".." ∉ d.
Proof using Hwf0 Hsd0 Hitems Hclash.
  intros Hin. unfold clash_free in Hclash. rewrite Forall_forall in Hclash.
  by destruct (Hclash _ Hin) as (? & ? & _).
Qed.

(** A recorded destination lies at least two levels below the source
    directory. *)
Lemma organized_dst_length b fs src dst :
  organized plan fs0 b fs → (src, dst) ∈ b → length sd + 1 < length dst.
Proof using Hwf0 Hsd0 Hitems Hclash.
  intros (_ & _ & Hrec & _) Hin. destruct (Hrec _ _ Hin) as (Hp & Hdst & _).
  destruct (clash_free_at _ _ Hp) as (_ & Hlen & _).
  rewrite Hdst, length_app. simpl. lia.
Qed.

Lemma organized_src b fs src dst :
  organized plan fs0 b fs → (src, dst) ∈ b →
  ∃ n, src = sd ++ [n] ∧ n ≠ history_name.
Proof using Hwf0 Hsd0 Hitems Hclash.
  intros (_ & _ & Hrec & _) Hin. destruct (Hrec _ _ Hin) as (Hp & _).
  by apply Hitems in Hp.
Qed.

(** A top-level path that is a regular file of [fs0], or the history
    path, is not on the way to a planned destination folder. *)
Lemma top_not_prefix item d p :
  (item, d) ∈ plan → length p = S (length sd) →
  FS.is_file fs0 p = true ∨ p = history_file e → ¬ p `prefix_of` d.
Proof using Hwf0 Hsd0 Hitems Hclash.
  intros Hin Hlen Hp Hpre. destruct (clash_free_at _ _ Hin) as (_ & _ & Hf & Hh & _).
  apply prefix_take in Hpre. rewrite Hlen in Hpre. rewrite <- Hpre in *.
  destruct Hp; congruence.
Qed.

Lemma organized_start fs : FS.wf fs → fs = fs0 → organized plan fs0 [] fs.
Proof using Hwf0 Hsd0 Hitems Hclash.
  intros Hwf ->. split; [done|]. split; [constructor|]. split.
  - intros src dst []%elem_of_nil.
  - intros p _ _. by left.
Qed.

(** The history path is as it was. *)
Lemma organized_history b fs :
  organized plan fs0 b fs → fs !! history_file e = fs0 !! history_file e.
Proof using Hwf0 Hsd0 Hitems Hclash.
  intros Horg. pose proof Horg as (_ & _ & Hrec & Hframe).
  destruct (Hframe (history_file e)) as [?|(_ & _ & [src dst] & Hin & Hpre)]; [| |done|].
  - intros ([src dst] & Heq & Hin)%list_elem_of_fmap. simpl in Heq.
    destruct (organized_src _ _ _ _ Horg Hin) as (n & Hsrc & Hn).
    apply (snoc_ne_last sd sd _ _ Hn). by rewrite <- Hsrc, <- Heq.
  - intros ([src dst] & Heq & Hin)%list_elem_of_fmap. simpl in Heq.
    pose proof (organized_dst_length _ _ _ _ Horg Hin) as Hlen.
    rewrite <- Heq in Hlen. unfold history_file in Hlen.
    rewrite length_app in Hlen. simpl in Hlen. lia.
  - destruct (Hrec _ _ Hin) as (Hp & _). simpl in Hpre.
    destruct (top_not_prefix _ _ (history_file e) Hp); [|by right|done].
    unfold history_file. rewrite length_app. simpl. lia.
Qed.

(** The source directory is still a directory. *)
Lemma organized_sd b fs : organized plan fs0 b fs → fs !! sd = Some Dir.
Proof using Hwf0 Hsd0 Hitems Hclash.
  intros Horg. pose proof Horg as (_ & _ & Hrec & Hframe).
  destruct (Hframe sd) as [->|(Hnone & _)]; [| |done|congruence].
  - intros ([src dst] & Heq & Hin)%list_elem_of_fmap. simpl in Heq.
    destruct (organized_src _ _ _ _ Horg Hin) as (n & Hsrc & Hn).
    rewrite <- Heq in Hsrc.
    apply (f_equal length) in Hsrc. rewrite length_app in Hsrc. simpl in Hsrc. lia.
  - intros ([src dst] & Heq & Hin)%list_elem_of_fmap. simpl in Heq.
    pose proof (organized_dst_length _ _ _ _ Horg Hin) as Hlen.
    rewrite <- Heq in Hlen. lia.
Qed.

Lemma organized_item b fs n m c :
  organized plan fs0 b fs →
  fs0 !! (sd ++ [n]) = Some (File m c) → sd ++ [n] ∉ b.*1 →
  fs !! (sd ++ [n]) = Some (File m c).
Proof using Hwf0 Hsd0 Hitems Hclash.
  intros Horg Hfile Hnot. pose proof Horg as (_ & _ & _ & Hframe).
  destruct (Hframe (sd ++ [n])) as [->|(Hnone & _)]; [done| |done|congruence].
  intros ([src dst] & Heq & Hin)%list_elem_of_fmap. simpl in Heq.
  pose proof (organized_dst_length _ _ _ _ Horg Hin) as Hlen.
  rewrite <- Heq, length_app in Hlen. simpl in Hlen. lia.
Qed.

(** One iteration of the main loop keeps the invariant, and records at
    most the file it was given. *)
Lemma organized_step total b st k n m c :
  organized plan fs0 b (st_fs st) →
  fs0 !! (sd ++ [n]) = Some (File m c) →
  sd ++ [n] ∉ b.*1 →
  (∀ d, classify e mode gran km nested fs0 (sd ++ [n]) = MoveTo d →
        (sd ++ [n], d) ∈ plan) →
  let r := organize_step e mode gran km nested total (st, b) (k, sd ++ [n]) in
  organized plan fs0 r.2 (st_fs r.1)
  ∧ (r.2 = b ∨ ∃ dst, r.2 = b ++ [(sd ++ [n], dst)]).
Proof using Hwf0 Hsd0 Hitems Hclash.
  intros Horg Hfile Hnot Hplan.
  pose proof (organized_item _ _ _ _ _ Horg Hfile Hnot) as Hitem.
  pose proof Horg as (Hwf & Hnd & Hrec & Hframe).
  assert (classify e mode gran km nested (st_fs st) (sd ++ [n])
          = classify e mode gran km nested fs0 (sd ++ [n])) as Hcl
    by (apply classify_ext; congruence).
  destruct (classify e mode gran km nested fs0 (sd ++ [n])) as [| |d] eqn:Hclass.
  1,2: pose proof (organize_step_cases e mode gran km nested total st b k _ m c Hwf Hitem)
         as Hstep; rewrite Hcl in Hstep; cbv zeta in *;
       destruct (organize_step e mode gran km nested total (st, b) (k, sd ++ [n]))
         as [st1 b1]; cbn [fst snd] in *;
       destruct Hstep as [-> ->]; by split; [|left].
  specialize (Hplan d eq_refl).
  destruct (clash_free_plain _ _ Hplan) as [Hitem_plain Hd_plain].
  assert (FS.name (sd ++ [n]) ≠ "..") as Hname.
  { rewrite name_snoc. intros ->. apply Hitem_plain, elem_of_app. right. by left. }
  pose proof (organize_step_plain e mode gran km nested total st b k _ m c d
                Hwf Hitem Hcl Hd_plain Hname) as Hstep.
  destruct (organize_step e mode gran km nested total (st, b) (k, sd ++ [n]))
    as [st1 b1].
  cbn [fst snd] in *. rewrite name_snoc in Hstep.
  destruct (clash_free_at _ _ Hplan) as (Hpre & Hlen & Htop & Hhist & Hdstdir & Hway).
  rewrite name_snoc in Hdstdir.
  destruct Hstep as (Hwf1 & [[-> ->]|(-> & [[_ Hsame]|(fs1 & real & Hmk & Hreal & Hne & Hfs)])]).
  { by split; [|left]. }
  { apply (f_equal length) in Hsame. rewrite !length_app in Hsame. simpl in Hsame. lia. }
  split; [|right; by eexists].
  destruct (mkdir_parents_spec _ _ _ _ Hwf Hd_plain Hmk) as (_ & _ & Hsub & Hd & Hnew).
  (* the destination path is not a directory, so the file lands on it *)
  assert (fs1 !! (d ++ [n]) ≠ Some Dir) as Hnodir.
  { intros Hdir. destruct (Hnew _ _ Hdir) as [Hold|(_ & _ & _ & Hp)].
    - destruct (Hframe (d ++ [n])) as [Heq|(_ & _ & [src dst] & Hin & Hp)].
      + intros ([src dst] & Heq & Hin)%list_elem_of_fmap. simpl in Heq.
        destruct (organized_src _ _ _ _ Horg Hin) as (n' & Hsrc & _).
        rewrite <- Heq in Hsrc. apply (f_equal length) in Hsrc.
        rewrite !length_app in Hsrc. simpl in Hsrc. lia.
      + intros ([src dst] & Heq & Hin)%list_elem_of_fmap. simpl in Heq.
        destruct (Hrec _ _ Hin) as (_ & _ & _ & m' & c' & _ & Hf). congruence.
      + rewrite Heq in Hold. apply is_dir_lookup in Hold. congruence.
      + destruct (Hrec _ _ Hin) as (Hin' & _). apply (Hway _ _ Hin').
        by rewrite name_snoc.
    - apply prefix_length in Hp. rewrite length_app in Hp. simpl in Hp. lia. }
  destruct Hreal as [[-> Hreal]|(_ & Hdir & _)]; [|done].
  assert (Hfresh : ∀ p, length p = S (length sd) →
            FS.is_file fs0 p = true ∨ p = history_file e →
            fs1 !! p = st_fs st !! p).
  { intros p Hp Hkind. destruct (fs1 !! p) as [nd|] eqn:E.
    - destruct (Hnew _ _ E) as [?|(_ & _ & _ & Hpp)]; [done|].
      by destruct (top_not_prefix _ _ _ Hplan Hp Hkind).
    - symmetry. by eapply lookup_weaken_None. }
  split; [done|]. split; [|split].
  - rewrite fmap_app. apply NoDup_app. split; [done|]. split; [|apply NoDup_singleton].
    intros x Hx ->%list_elem_of_singleton. done.
  - intros src dst [Hin|Hin]%elem_of_app.
    + destruct (Hrec _ _ Hin) as (Hp & Hdst & Hnone & m' & c' & Hsrc0 & Hdstf).
      destruct (organized_src _ _ _ _ Horg Hin) as (n' & Hsrc & Hn').
      assert (n' ≠ n).
      { intros ->. apply Hnot. apply list_elem_of_fmap. exists (src, dst).
        split; [by rewrite Hsrc|done]. }
      split; [done|]. split; [done|]. split.
      * rewrite Hfs, lookup_insert_ne, lookup_delete_ne.
        -- rewrite Hsrc, Hfresh; [by rewrite <- Hsrc| |].
           ++ rewrite length_app. simpl. lia.
           ++ left. unfold FS.is_file. by rewrite <- Hsrc, Hsrc0.
        -- rewrite Hsrc. by apply snoc_ne_last.
        -- rewrite Hsrc. by apply snoc_ne_last.
      * exists m', c'. split; [done|].
        rewrite Hfs, lookup_insert_ne, lookup_delete_ne.
        -- by eapply lookup_weaken.
        -- pose proof (organized_dst_length _ _ _ _ Horg Hin) as Hl.
           intros E. rewrite <- E, length_app in Hl. simpl in Hl. lia.
        -- rewrite Hdst, Hsrc, name_snoc. by apply snoc_ne_last.
    + apply list_elem_of_singleton in Hin as [= -> ->].
      rewrite parent_snoc, name_snoc. split; [done|]. split; [done|]. split.
      * rewrite Hfs, lookup_insert_ne by done. apply lookup_delete_eq.
      * exists m, c. split; [done|]. rewrite Hfs. apply lookup_insert_eq.
  - intros p Hp1 Hp2. rewrite fmap_app in Hp1, Hp2.
    apply not_elem_of_app in Hp1 as [Hp1 Hp1'], Hp2 as [Hp2 Hp2'].
    simpl in Hp1', Hp2'. rewrite list_elem_of_singleton in Hp1', Hp2'.
    rewrite Hfs, lookup_insert_ne, lookup_delete_ne by done.
    destruct (fs1 !! p) as [nd|] eqn:E.
    + destruct (Hnew _ _ E) as [Hold|(Hnone & -> & _ & Hpp)].
      * rewrite <- Hold. destruct (Hframe p Hp1 Hp2) as [?|(? & ? & r & ? & ?)]; [by left|].
        right. split; [done|]. split; [done|]. exists r. split; [|done].
        apply elem_of_app. by left.
      * right. destruct (Hframe p Hp1 Hp2) as [Heq|(? & ? & _)]; [|congruence].
        split; [congruence|]. split; [done|]. exists (sd ++ [n], d ++ [n]).
        split; [apply elem_of_app; right; by apply list_elem_of_singleton|].
        simpl. by rewrite parent_snoc.
    + assert (st_fs st !! p = None) as Hnone by (by eapply lookup_weaken_None).
      destruct (Hframe p Hp1 Hp2) as [Heq|(? & ? & _)]; [|congruence].
      left. congruence.
Qed.

(** The main loop keeps the invariant. *)
Lemma organized_fold total names :
  ∀ k st b,
    NoDup names →
    (∀ n, n ∈ names →
       sd ++ [n] ∉ b.*1
       ∧ FS.is_file fs0 (sd ++ [n]) = true
       ∧ ∀ d, classify e mode gran km nested fs0 (sd ++ [n]) = MoveTo d →
              (sd ++ [n], d) ∈ plan) →
    organized plan fs0 b (st_fs st) →
    let r := foldl (organize_step e mode gran km nested total) (st, b)
               (zip (seq k (length names)) (map (λ n, sd ++ [n]) names)) in
    organized plan fs0 r.2 (st_fs r.1).
Proof using Hwf0 Hsd0 Hitems Hclash.
  induction names as [|n names IH]; intros k st b Hnd Hnames Horg; [done|].
  cbn [length seq map zip zip_with foldl].
  apply NoDup_cons in Hnd as [Hn Hnd].
  destruct (Hnames n) as (Hnot & Hfile & Hplan); [left|].
  unfold FS.is_file in Hfile.
  destruct (fs0 !! (sd ++ [n])) as [[|m c]|] eqn:Hitem; try done.
  pose proof (organized_step total b st k n m c Horg Hitem Hnot Hplan) as Hstep.
  destruct (organize_step e mode gran km nested total (st, b) (k, sd ++ [n]))
    as [st1 b1].
  cbn [fst snd] in Hstep. destruct Hstep as [Horg1 Hb1].
  apply IH; [done| |done].
  intros n' Hn'. destruct (Hnames n') as (Hnot' & ? & ?); [by right|].
  split; [|done]. destruct Hb1 as [->|[dst ->]]; [done|].
  rewrite fmap_app. apply not_elem_of_app. split; [done|].
  simpl. rewrite list_elem_of_singleton. intros E%app_inj_tail. naive_solver.
Qed.

End Organize.

Lemma undo_step_moved e total st folders n k source dest fs' :
  FS.shutil_move (st_fs st) dest source = (fs', None) →
  undo_step e total (st, folders, n) (k, (source, dest))
  = (_report_progress e (k + 1) total
       (emit (EvUndoMoved dest source) (State fs' (st_out st))),
     (if bool_decide (FS.parent dest ∈ folders) then folders
      else folders ++ [FS.parent dest]),
     n + 1).
Proof. intros H. unfold undo_step. by rewrite H. Qed.

Lemma restorable_dst_ne e l fs src dst src' dst' :
  restorable e l fs → (src, dst) ∈ l → (src', dst') ∈ l → src ≠ src' → dst ≠ dst'.
Proof.
  intros [_ Hrec] Hin Hin' Hne E.
  destruct (Hrec _ _ Hin) as (_ & _ & [n ->] & _ & Hd & _).
  destruct (Hrec _ _ Hin') as (_ & _ & [n' ->] & _ & Hd' & _).
  rewrite name_snoc in Hd, Hd'. apply Hne. f_equal. f_equal.
  rewrite Hd, Hd' in E. by apply app_inj_tail in E as [_ ?].
Qed.

(** The restore loop over such records moves every file back, counts
    each, collects the folder of each destination and touches nothing
    else. *)
Lemma restore_fold e total l :
  ∀ k st folders n,
    FS.wf (st_fs st) →
    st_fs st !! source_directory e = Some Dir →
    restorable e l (st_fs st) →
    let r := foldl (undo_step e total) (st, folders, n) (zip (seq k (length l)) l) in
    FS.wf (st_fs r.1.1)
    ∧ r.2 = n + length l
    ∧ (∀ f, f ∈ r.1.2 ↔ f ∈ folders ∨ f ∈ FS.parent <$> l.*2)
    ∧ (∀ src dst, (src, dst) ∈ l →
         st_fs r.1.1 !! src = st_fs st !! dst ∧ st_fs r.1.1 !! dst = None)
    ∧ (∀ p, p ∉ l.*1 → p ∉ l.*2 → st_fs r.1.1 !! p = st_fs st !! p).
Proof.
  induction l as [|[src dst] l IH]; intros k st folders n Hwf Hsd Hres.
  { simpl. split; [done|]. split; [lia|]. split; [|split; [|done]].
    - intros f. rewrite elem_of_nil. naive_solver.
    - intros ?? []%elem_of_nil. }
  cbn [length seq zip zip_with foldl].
  pose proof Hres as [Hnd Hrec]. rewrite fmap_cons in Hnd.
  apply NoDup_cons in Hnd as [Hsrc_new Hnd]. simpl in Hsrc_new.
  destruct (Hrec src dst)
    as (Hps & Hpd & [name Hname] & Hlen & Hdst & Hnone & m & c & Hfile); [left|].
  assert (length src = length (source_directory e) + 1) as Hlsrc.
  { rewrite Hname, length_app. simpl. lia. }
  (* the move back succeeds *)
  assert (FS.shutil_move (st_fs st) dst src
          = (<[src := File m c]> (delete dst (st_fs st)), None)) as Hmove.
  { assert (FS.name dst = name) as Hnm by (by rewrite Hdst, name_snoc, Hname, name_snoc).
    assert (name ≠ "..") as Hn.
    { intros ->. apply Hps. rewrite Hname. apply elem_of_app. right. by left. }
    pose proof (shutil_move_file (st_fs st) dst (source_directory e)
                  (source_directory e) m c Hwf Hfile
                  (resolve_key _ _ _ Hwf Hsd) Hsd) as H.
    cbv zeta in H. rewrite Hnm, <- Hname in H.
    destruct (FS.shutil_move (st_fs st) dst src) as [fs' [err|]].
    - destruct H as [_ H]. destruct (H Hn) as [H' _]. congruence.
    - destruct H as [[E _]|(real & [[-> _]|(_ & H & _)] & _ & ->)];
        [apply (f_equal length) in E; lia|done|congruence]. }
  rewrite (undo_step_moved _ _ _ _ _ _ _ _ _ Hmove).
  set (st1 := _report_progress e (k + 1) total _).
  set (folders1 := if bool_decide _ then _ else _).
  assert (st_fs st1 = <[src := File m c]> (delete dst (st_fs st))) as Hfs1
    by (subst st1; by rewrite report_progress_fs).
  assert (∀ p, p ≠ src → p ≠ dst → st_fs st1 !! p = st_fs st !! p) as Hother.
  { intros p ? ?. by rewrite Hfs1, lookup_insert_ne, lookup_delete_ne. }
  assert (Hin_l : ∀ src' dst', (src', dst') ∈ l →
            src' ≠ src ∧ src' ≠ dst ∧ dst' ≠ src ∧ dst' ≠ dst).
  { intros src' dst' Hin.
    destruct (Hrec src' dst') as (_ & _ & [n' Hn'] & Hlen' & _); [by right|].
    assert (src' ≠ src).
    { intros ->. apply Hsrc_new. apply list_elem_of_fmap. by exists (src, dst'). }
    split; [done|]. split; [|split].
    - intros E. rewrite <- E, Hn', length_app in Hlen. simpl in Hlen. lia.
    - intros E. rewrite E in Hlen'. lia.
    - eapply (restorable_dst_ne e _ _ src' dst' src dst Hres); [by right|left|done]. }
  assert (FS.wf (st_fs st1)) as Hwf1.
  { rewrite Hfs1. apply wf_rename_file; [done..| |by apply is_dir_false_None].
    by rewrite Hname, parent_snoc. }
  assert (st_fs st1 !! source_directory e = Some Dir) as Hsd1.
  { rewrite Hother; [done| |]; intros E; rewrite <- E in *; lia. }
  assert (restorable e l (st_fs st1)) as Hres1.
  { split; [done|]. intros src' dst' Hin.
    destruct (Hrec src' dst') as (? & ? & ? & ? & ? & ? & ?); [by right|].
    destruct (Hin_l _ _ Hin) as (? & ? & ? & ?).
    rewrite !Hother by done. done. }
  destruct (IH (S k) st1 folders1 (n + 1) Hwf1 Hsd1 Hres1)
    as (Hwf' & Hn' & Hfolders & Hmoved & Hframe).
  split; [done|]. split; [simpl; lia|]. split; [|split].
  - intros f. rewrite Hfolders. subst folders1. rewrite !fmap_cons, elem_of_cons.
    simpl. case_bool_decide; [naive_solver|].
    rewrite elem_of_app, list_elem_of_singleton. naive_solver.
  - intros src' dst' [[= E1 E2]|Hin]%elem_of_cons.
    + subst src' dst'. rewrite !Hframe, Hfs1.
      * rewrite lookup_insert_eq, lookup_insert_ne, lookup_delete_eq; [done|].
        intros E. apply (f_equal length) in E. lia.
      * intros ([s d] & E & Hin)%list_elem_of_fmap. simpl in E.
        destruct (Hin_l _ _ Hin) as (? & ? & ? & ?). congruence.
      * intros ([s d] & E & Hin)%list_elem_of_fmap. simpl in E.
        destruct (Hin_l _ _ Hin) as (? & ? & ? & ?). congruence.
      * intros ([s d] & E & Hin)%list_elem_of_fmap. simpl in E.
        destruct (Hin_l _ _ Hin) as (? & ? & ? & ?). congruence.
      * intros ([s d] & E & Hin)%list_elem_of_fmap. simpl in E.
        destruct (Hin_l _ _ Hin) as (? & ? & ? & ?). congruence.
    + destruct (Hmoved _ _ Hin) as [-> ->].
      destruct (Hin_l _ _ Hin) as (? & ? & ? & ?). by rewrite Hother.
  - intros p Hp1 Hp2. rewrite !fmap_cons in Hp1, Hp2. simpl in Hp1, Hp2.
    apply not_elem_of_cons in Hp1 as [? ?], Hp2 as [? ?].
    rewrite Hframe by done. by apply Hother.
Qed.

(** *** Folder cleanup *)

Lemma ancestors_nil : ancestors [] = [[]].
Proof. reflexivity. Qed.

Lemma ancestors_snoc (c : path) n : ancestors (c ++ [n]) = (c ++ [n]) :: ancestors c.
Proof.
  unfold ancestors. rewrite length_app. change (length [n]) with 1.
  replace (S (length c + 1)) with (S (S (length c))) by lia.
  rewrite (seq_S (S (length c))), reverse_snoc, Nat.add_0_l. cbn [map].
  rewrite firstn_all2 by (rewrite length_app; simpl; lia). f_equal.
  apply map_ext_in. intros i Hi%list_elem_of_In%elem_of_reverse%elem_of_seq.
  apply take_app_le. lia.
Qed.

Lemma prefix_snoc_inv (x c : path) n :
  x `prefix_of` c ++ [n] → x = c ++ [n] ∨ x `prefix_of` c.
Proof.
  intros [q Hq]. destruct q as [|n' q _] using rev_ind.
  - left. by rewrite app_nil_r in Hq.
  - right. rewrite app_assoc in Hq. apply app_inj_tail in Hq as [-> _]. by exists q.
Qed.

Lemma wf_delete_empty fs c :
  FS.wf fs → c ≠ [] → (∀ n, fs !! (c ++ [n]) = None) → FS.wf (delete c fs).
Proof.
  intros Hwf Hc Hempty. split.
  - rewrite lookup_delete_ne by done. by apply wf_root.
  - intros p nd [Hpc Hp]%lookup_delete_Some. apply is_dir_lookup.
    rewrite lookup_delete_ne; [by eapply wf_parent|].
    intros E. destruct (decide (p = [])) as [->|Hp0]; [done|].
    rewrite (path_snoc_inv p Hp0), <- E, Hempty in Hp. done.
Qed.

Lemma insert_by_depth_elem p l f : f ∈ insert_by_depth p l ↔ f = p ∨ f ∈ l.
Proof.
  induction l as [|q l IH]; simpl.
  - rewrite list_elem_of_singleton, elem_of_nil. naive_solver.
  - destruct (length p <? length q); rewrite !elem_of_cons, ?IH; naive_solver.
Qed.

Lemma sorted_by_depth_elem l f : f ∈ sorted_by_depth l ↔ f ∈ l.
Proof.
  unfold sorted_by_depth. induction l as [|p l IH]; simpl; [done|].
  rewrite insert_by_depth_elem, elem_of_cons, IH. done.
Qed.

Section Cleanup.
Variables (e : engine) (fs0 : gmap path node).
Hypothesis Hwf0 : FS.wf fs0.
Hypothesis Hsd0 : fs0 !! source_directory e = Some Dir.

Local Notation fresh := (fresh_dir fs0).
Local Notation only := (only_dirs e fs0).

Lemma shrunk_refl fs : shrunk fs fs.
Proof using Hwf0 Hsd0. intros p. by left. Qed.

Lemma shrunk_trans fs1 fs2 fs3 : shrunk fs1 fs2 → shrunk fs2 fs3 → shrunk fs1 fs3.
Proof using Hwf0 Hsd0.
  intros H12 H23 p. destruct (H12 p) as [E|[? ?]], (H23 p) as [E'|[? ?]].
  - left. congruence.
  - right. split; congruence.
  - right. split; congruence.
  - congruence.
Qed.

Lemma fresh_below fs x y : fresh fs x → x `prefix_of` y → fs0 !! y = None.
Proof using Hwf0 Hsd0. intros [_ Hx] [q ->]. by apply wf_below_missing. Qed.

Lemma fresh_not_above_sd fs x : fresh fs x → ¬ x `prefix_of` source_directory e.
Proof using Hwf0 Hsd0.
  intros Hx Hpre. by rewrite (fresh_below _ _ _ Hx Hpre) in Hsd0.
Qed.

(** One walk up from [c]: every new directory that hung on [c] alone
    is gone, or hangs on a folder still to be walked. *)
Lemma cleanup_walk_inv (rem : list path) :
  ∀ c st,
    ".." ∉ c →
    FS.wf (st_fs st) → only (st_fs st) →
    (∀ x, fresh (st_fs st) x →
       (∃ f, f ∈ rem ∧ x `prefix_of` f ∧ st_fs st !! f = Some Dir)
       ∨ (x `prefix_of` c ∧ st_fs st !! c = Some Dir)) →
    let st' := cleanup_walk e (ancestors c) st in
    FS.wf (st_fs st') ∧ only (st_fs st') ∧ shrunk (st_fs st) (st_fs st')
    ∧ ∀ x, fresh (st_fs st') x →
        ∃ f, f ∈ rem ∧ x `prefix_of` f ∧ st_fs st' !! f = Some Dir.
Proof using Hwf0 Hsd0.
  assert (Hstay : ∀ c st st',
    FS.wf (st_fs st) → only (st_fs st) →
    (∀ x, fresh (st_fs st) x →
       (∃ f, f ∈ rem ∧ x `prefix_of` f ∧ st_fs st !! f = Some Dir)
       ∨ (x `prefix_of` c ∧ st_fs st !! c = Some Dir)) →
    st_fs st' = st_fs st →
    (∀ x, fresh (st_fs st) x → x `prefix_of` c → st_fs st !! c = Some Dir →
          ∃ f, f ∈ rem ∧ x `prefix_of` f ∧ st_fs st !! f = Some Dir) →
    FS.wf (st_fs st') ∧ only (st_fs st') ∧ shrunk (st_fs st) (st_fs st')
    ∧ ∀ x, fresh (st_fs st') x →
        ∃ f, f ∈ rem ∧ x `prefix_of` f ∧ st_fs st' !! f = Some Dir).
  { intros c st st' Hwf Honly Hinv -> Hc. split; [done|]. split; [done|].
    split; [apply shrunk_refl|]. intros x Hx.
    destruct (Hinv x Hx) as [?|[? ?]]; [done|]. by apply Hc. }
  induction c as [|n c IH] using rev_ind; intros st Hplain Hwf Honly Hinv.
  - rewrite ancestors_nil. apply (Hstay [] st); [done..| |].
    + simpl. repeat case_match; try done.
      unfold FS.path_rmdir, FS.locate, FS.rmdir in *. repeat case_match; simplify_eq.
    + intros x [_ Hx] Hpre _. apply prefix_nil_inv in Hpre as ->.
      rewrite (wf_root _ Hwf0) in Hx. done.
  - rewrite ancestors_snoc. cbn [cleanup_walk].
    rewrite path_exists_plain, path_isdir_plain, path_dir_is_empty_plain,
      path_rmdir_plain by done.
    apply not_elem_of_app in Hplain as [Hplain _].
    destruct (bool_decide (c ++ [n] = source_directory e)) eqn:Hsd.
    { apply bool_decide_eq_true in Hsd. simpl. apply (Hstay (c ++ [n]) st); [done..|].
      intros x Hx Hpre _. rewrite Hsd in Hpre. by destruct (fresh_not_above_sd _ _ Hx). }
    pose proof (λ st' H, Hstay (c ++ [n]) st st' Hwf Honly Hinv H) as Hstay_c.
    unfold FS.exists_, FS.is_dir.
    destruct (st_fs st !! (c ++ [n])) as [[|m d]|] eqn:Hc; simpl;
      [|apply Hstay_c; [done|intros; congruence]..].
    clear Hstay_c.
    destruct (FS.dir_is_empty (st_fs st) (c ++ [n])) eqn:Hempty.
    + unfold FS.rmdir. rewrite Hc, Hempty.
      rewrite bool_decide_eq_false_2 by (by destruct c).
      pose proof (proj1 (dir_is_empty_spec _ _) Hempty) as Hnochild.
      set (st1 := emit _ _).
      assert (st_fs st1 = delete (c ++ [n]) (st_fs st)) as Hfs1 by done.
      assert (shrunk (st_fs st) (st_fs st1)) as Hshr.
      { intros p. rewrite Hfs1. destruct (decide (p = c ++ [n])) as [->|Hne].
        - right. by rewrite lookup_delete_eq.
        - left. by rewrite lookup_delete_ne. }
      destruct (IH st1) as (Hwf' & Honly' & Hshr' & Hinv').
      * done.
      * rewrite Hfs1. apply wf_delete_empty; [done|by destruct c|done].
      * intros p nd Hp. rewrite Hfs1 in Hp. apply lookup_delete_Some in Hp as [_ Hp].
        by apply Honly.
      * intros x [Hx Hx0]. rewrite Hfs1 in Hx.
        apply lookup_delete_Some in Hx as [Hne Hx].
        assert (st_fs st1 !! c = Some Dir) as Hparent.
        { rewrite Hfs1, lookup_delete_ne.
          - rewrite <- (parent_snoc c n). by eapply wf_parent.
          - intros E. apply (f_equal length) in E. rewrite length_app in E.
            simpl in E. lia. }
        destruct (Hinv x) as [(f & Hf & Hpre & Hfdir)|[Hpre _]]; [done| |].
        -- destruct (decide (f = c ++ [n])) as [->|Hfne].
           ++ right. split; [|done].
              by destruct (prefix_snoc_inv _ _ _ Hpre) as [?|?].
           ++ left. exists f. split; [done|]. split; [done|].
              by rewrite Hfs1, lookup_delete_ne.
        -- right. split; [|done].
           by destruct (prefix_snoc_inv _ _ _ Hpre) as [?|?].
      * split; [done|]. split; [done|]. split; [|done].
        by eapply shrunk_trans.
    + apply (Hstay (c ++ [n]) st);
        [done|done|intros x Hx; rewrite Hc; by apply Hinv|done|].
      intros x Hx Hpre _.
      destruct (dir_is_empty_false _ _ Hempty) as (n' & nd & Hz).
      assert (fs0 !! (c ++ [n]) = None) as Hc0 by (by eapply fresh_below).
      assert (fs0 !! ((c ++ [n]) ++ [n']) = None) as Hz0
        by (by apply wf_below_missing).
      assert (nd = Dir) as ->.
      { eapply Honly; [done..|]. unfold history_file.
        intros [E _]%app_inj_tail. rewrite E in Hc0. congruence. }
      destruct (Hinv ((c ++ [n]) ++ [n'])) as [(f & Hf & Hpre' & Hfdir)|[Hpre' _]];
        [done| |].
      * exists f. split; [done|]. split; [|done].
        etrans; [done|]. etrans; [|done]. by apply prefix_app_r.
      * apply prefix_length in Hpre'. rewrite length_app in Hpre'.
        simpl in Hpre'. lia.
Qed.

(** Walking up from every folder of the list leaves no new directory,
    when each was on the way to a folder of the list. *)
Lemma cleanup_all l :
  ∀ st,
    Forall (λ f : path, ".." ∉ f) l →
    FS.wf (st_fs st) → only (st_fs st) →
    (∀ x, fresh (st_fs st) x →
       ∃ f, f ∈ l ∧ x `prefix_of` f ∧ st_fs st !! f = Some Dir) →
    let st' := foldl (λ st folder, cleanup_walk e (ancestors folder) st) st l in
    FS.wf (st_fs st') ∧ shrunk (st_fs st) (st_fs st')
    ∧ ∀ x, ¬ fresh (st_fs st') x.
Proof using Hwf0 Hsd0.
  induction l as [|c l IH]; intros st Hplain Hwf Honly Hinv.
  - simpl. split; [done|]. split; [apply shrunk_refl|].
    intros x Hx. destruct (Hinv x Hx) as (f & []%elem_of_nil & _).
  - cbn [foldl]. apply Forall_cons in Hplain as [Hc Hplain].
    destruct (cleanup_walk_inv l c st Hc Hwf Honly) as (Hwf1 & Honly1 & Hshr1 & Hinv1).
    { intros x Hx. destruct (Hinv x Hx) as (f & [->|Hf]%elem_of_cons & Hpre & Hdir).
      - by right.
      - left. by exists f. }
    destruct (IH _ Hplain Hwf1 Honly1 Hinv1) as (Hwf' & Hshr' & Hnone).
    split; [done|]. split; [|done]. by eapply shrunk_trans.
Qed.

Lemma cleanup_folders_spec folders st :
  (∀ l, set_order e l ≡ₚ l) →
  Forall (λ f : path, ".." ∉ f) folders →
  FS.wf (st_fs st) → only (st_fs st) →
  (∀ x, fresh (st_fs st) x →
     ∃ f, f ∈ folders ∧ x `prefix_of` f ∧ st_fs st !! f = Some Dir) →
  let st' := cleanup_folders e folders st in
  FS.wf (st_fs st') ∧ shrunk (st_fs st) (st_fs st')
  ∧ ∀ x, ¬ fresh (st_fs st') x.
Proof using Hwf0 Hsd0.
  intros Hperm Hplain Hwf Honly Hinv. unfold cleanup_folders.
  apply cleanup_all; [|done..|].
  { apply Forall_forall. intros f Hf.
    apply (proj1 (sorted_by_depth_elem _ _)) in Hf. rewrite Hperm in Hf.
    by apply (proj1 (Forall_forall _ _) Hplain). }
  intros x Hx. destruct (Hinv x Hx) as (f & Hf & ?). exists f. split; [|done].
  apply sorted_by_depth_elem. by rewrite Hperm.
Qed.

End Cleanup.

(** ** Organize, then undo *)

Lemma wf_insert_file fs p m c :
  FS.wf fs → p ≠ [] → fs !! FS.parent p = Some Dir → fs !! p ≠ Some Dir →
  FS.wf (<[p := File m c]> fs).
Proof.
  intros Hwf Hp Hpar Hnd.
  assert (FS.parent p ≠ p) as Hne.
  { intros E. rewrite (path_snoc_inv p Hp) in E at 2.
    apply (f_equal length) in E. rewrite length_app in E. simpl in E. lia. }
  split.
  - rewrite lookup_insert_ne by done. by apply wf_root.
  - intros q nd Hq. apply is_dir_lookup.
    apply lookup_insert_Some in Hq as [[<- _]|[Hqp Hq]].
    + by rewrite lookup_insert_ne.
    + rewrite lookup_insert_ne; [by eapply wf_parent|].
      intros E. rewrite E in Hnd. apply Hnd. by eapply wf_parent.
Qed.

Lemma history_file_parent e : FS.parent (history_file e) = source_directory e.
Proof. unfold history_file. apply parent_snoc. Qed.

(** What the last step of an undo does to the tree when the history
    file is there. *)
Lemma persist_history_fs e s st m c :
  st_fs st !! history_file e = Some (File m c) →
  st_fs st !! source_directory e = Some Dir →
  st_fs (persist_history e s st)
  = if s is [] then delete (history_file e) (st_fs st)
    else <[history_file e := File (now e) (JsonStack s)]> (st_fs st).
Proof.
  intros Hhf Hsd. unfold persist_history, FS.remove, FS.write_file.
  rewrite Hhf, history_file_parent, Hsd. by destruct s.
Qed.

(** A call of [organize_files] that moves files, on a tree its plan does
    not clash with: the main loop ends in a tree [fs1] organized by the
    batch, and the batch is pushed on the stored stack. *)
Lemma organize_files_organized e mode gran kr fr nested st n st1 :
  FS.wf (st_fs st) →
  (∀ l, readdir_order e l ≡ₚ l) →
  FS.is_dir (st_fs st) (history_file e) = false →
  clash_free e (st_fs st)
    (planned e mode gran (rule_table mode kr fr) nested (st_fs st)) →
  organize_files e mode gran kr fr nested st = (inr n, st1) →
  0 < n →
  st_fs st !! source_directory e = Some Dir
  ∧ (∀ item d,
       (item, d) ∈ planned e mode gran (rule_table mode kr fr) nested (st_fs st) →
       ∃ n, item = source_directory e ++ [n] ∧ n ≠ history_name)
  ∧ ∃ b fs1,
      length b = n
      ∧ organized (planned e mode gran (rule_table mode kr fr) nested (st_fs st))
          (st_fs st) b fs1
      ∧ st_fs st1
        = <[history_file e :=
              File (now e) (JsonStack (stored_stack e (st_fs st) ++ [b]))]> fs1.
Proof.
  intros Hwf Hperm Hhf Hclash Hrun Hn.
  destruct (organize_files_inr _ _ _ _ _ _ _ _ _ Hrun)
    as (Hsd & [(_ & -> & _)|(st0 & st1' & b & Hfs0 & Hfold & -> & Hfs)]); [lia|].
  destruct (files_to_process_spec e (st_fs st) Hperm) as (names & Hfiles & Hnd & Hnames).
  set (plan := planned e mode gran (rule_table mode kr fr) nested (st_fs st)) in *.
  assert (∀ item d, (item, d) ∈ plan →
            ∃ n, item = source_directory e ++ [n] ∧ n ≠ history_name) as Hitems.
  { intros item d Hin. unfold plan, planned in Hin.
    apply list_elem_of_omap in Hin as (x & Hx & Hcl).
    rewrite Hfiles in Hx. apply list_elem_of_In, in_map_iff in Hx as (n' & <- & Hn').
    apply list_elem_of_In, Hnames in Hn' as (_ & Hh & _).
    exists n'. split; [|done]. by repeat case_match; simplify_eq. }
  split; [done|]. split; [done|].
  rewrite Hfiles in Hfold. unfold enumerate in Hfold. rewrite length_map in Hfold.
  assert (organized plan (st_fs st) b (st_fs st1')) as Horg.
  { pose proof (organized_fold e mode gran (rule_table mode kr fr) nested (st_fs st)
                  plan Hwf Hsd Hitems Hclash (length names) names 0 st0 [] Hnd) as Hf.
    cbv zeta in Hf. rewrite Hfold in Hf. apply Hf.
    - intros n' Hn'. split; [by intros ?%elem_of_nil|].
      split; [by apply Hnames|]. intros d Hcl.
      unfold plan, planned. apply list_elem_of_omap.
      exists (source_directory e ++ [n']). split; [|by rewrite Hcl].
      rewrite Hfiles. apply list_elem_of_In, in_map_iff. exists n'.
      split; [done|]. by apply list_elem_of_In.
    - apply (organized_start e (st_fs st) plan Hwf Hsd Hitems Hclash);
        by rewrite Hfs0. }
  exists b, (st_fs st1'). split; [done|]. split; [done|].
  destruct b as [|r b]; [simpl in Hn; lia|]. rewrite Hfs.
  pose proof (organized_history e (st_fs st) plan Hwf Hsd Hitems Hclash _ _ Horg) as Hh.
  destruct (save_history_spec e (r :: b) st1'
              (organized_sd e (st_fs st) plan Hwf Hsd Hitems Hclash _ _ Horg))
    as [[_ ->]|[Hdir _]].
  - by rewrite (stored_stack_lookup _ _ _ Hh).
  - rewrite Hh in Hdir. apply is_dir_lookup in Hdir. congruence.
Qed.

Lemma elem_of_fst (b : batch) p : p ∈ b.*1 → ∃ dst, (p, dst) ∈ b.
Proof. intros ([src dst] & -> & Hr)%list_elem_of_fmap. by exists dst. Qed.

Lemma elem_of_snd (b : batch) p : p ∈ b.*2 → ∃ src, (src, p) ∈ b.
Proof. intros ([src dst] & -> & Hr)%list_elem_of_fmap. by exists src. Qed.

(** An undo on a tree organized by the batch on top of the stored
    stack: every record is moved back, the folders the batch made are
    removed, and the stack is the one from before. *)
Lemma undo_organized e fs0 plan b fs1 st1 mt :
  FS.wf fs0 → fs0 !! source_directory e = Some Dir →
  (∀ item d, (item, d) ∈ plan →
     ∃ n, item = source_directory e ++ [n] ∧ n ≠ history_name) →
  clash_free e fs0 plan →
  (∀ l, set_order e l ≡ₚ l) →
  FS.is_dir fs0 (history_file e) = false →
  b ≠ [] →
  organized plan fs0 b fs1 →
  st_fs st1
  = <[history_file e := File mt (JsonStack (stored_stack e fs0 ++ [b]))]> fs1 →
  let r := undo_organization e st1 in
  r.1 = length b
  ∧ (∀ p nd, p ≠ history_file e → st_fs r.2 !! p = Some nd → fs0 !! p = Some nd)
  ∧ (∀ p m c, fs0 !! p = Some (File m c) → p ≠ history_file e →
       (∀ item d, (item, d) ∈ plan → p ≠ d ++ [FS.name item]) →
       st_fs r.2 !! p = Some (File m c))
  ∧ FS.is_dir (st_fs r.2) (history_file e) = false
  ∧ stored_stack e (st_fs r.2) = stored_stack e fs0.
Proof.
  intros Hwf0 Hsd0 Hitems Hclash Hset Hhf0 Hb Horg HfsS.
  pose proof Horg as (Hwf1 & Hnd & Hrec & Hrest).
  remember (stored_stack e fs0) as s eqn:Es. clear Es.
  set (hf := history_file e) in *.
  assert (∀ src dst, (src, dst) ∈ b →
            ∃ n, src = source_directory e ++ [n] ∧ n ≠ history_name) as Hsrc.
  { intros src dst Hin.
    by eapply (organized_src e fs0 plan Hwf0 Hsd0 Hitems Hclash b fs1). }
  assert (∀ src dst, (src, dst) ∈ b → length (source_directory e) + 1 < length dst)
    as Hlen.
  { intros src dst Hin.
    by eapply (organized_dst_length e fs0 plan Hwf0 Hsd0 Hitems Hclash b fs1). }
  assert (length hf = length (source_directory e) + 1) as Hhf_len.
  { unfold hf, history_file. rewrite length_app. simpl. lia. }
  assert (∀ src dst, (src, dst) ∈ b → src ≠ hf) as Hsrc_hf.
  { intros src dst Hin ->. destruct (Hsrc _ _ Hin) as (n & E & Hn).
    unfold hf, history_file in E. by apply app_inj_tail in E as [_ E]. }
  assert (∀ src dst, (src, dst) ∈ b → dst ≠ hf) as Hdst_hf.
  { intros src dst Hin ->. specialize (Hlen _ _ Hin). lia. }
  pose proof (organized_history e fs0 plan Hwf0 Hsd0 Hitems Hclash _ _ Horg) as Hh1.
  pose proof (organized_sd e fs0 plan Hwf0 Hsd0 Hitems Hclash _ _ Horg) as Hsd1.
  fold hf in Hh1.
  assert (fs1 !! hf ≠ Some Dir) as Hhf1.
  { rewrite Hh1. intros E. apply is_dir_lookup in E. congruence. }
  assert (FS.wf (st_fs st1)) as HwfS.
  { rewrite HfsS. apply wf_insert_file;
      [done| |unfold hf; by rewrite history_file_parent|done].
    unfold hf, history_file. by destruct (source_directory e). }
  assert (∀ p, p ≠ hf → st_fs st1 !! p = fs1 !! p) as HS.
  { intros p Hp. by rewrite HfsS, lookup_insert_ne. }
  assert (st_fs st1 !! hf = Some (File mt (JsonStack (s ++ [b])))) as HShf.
  { rewrite HfsS. apply lookup_insert_eq. }
  assert (stored_stack e (st_fs st1) = s ++ [b]) as Hstack.
  { rewrite HfsS. apply stored_stack_written. }
  destruct (undo_organization_run e st1 s b Hstack Hb)
    as (st1u & folders & st2 & n & Hfs1u & Hfold & Hrun).
  cbv zeta. rewrite Hrun. cbn [fst snd].
  assert (∀ src dst, (src, dst) ∈ b →
            ".." ∉ src ∧ ".." ∉ dst ∧ ".." ∉ FS.parent dst) as Hplain.
  { intros src dst Hin. destruct (Hrec _ _ Hin) as (Hplan & Hdst & _).
    destruct (clash_free_plain e fs0 plan Hwf0 Hsd0 Hitems Hclash _ _ Hplan) as [Hs Hd].
    split; [done|]. split; [|done]. rewrite Hdst.
    intros [?|Hx]%elem_of_app; [done|]. apply list_elem_of_singleton in Hx.
    destruct (Hsrc _ _ Hin) as (n' & E & _). rewrite E, name_snoc in Hx.
    apply Hs. rewrite E. apply elem_of_app. right. rewrite Hx. by left. }
  assert (restorable e (reverse b) (st_fs st1u)) as Hres.
  { rewrite Hfs1u. split.
    - by rewrite fmap_reverse, reverse_Permutation.
    - intros src dst Hin. rewrite elem_of_reverse in Hin.
      destruct (Hrec _ _ Hin) as (Hplan & Hdst & Hsrc1 & m & c & Hsrc0 & Hdst1).
      destruct (Hsrc _ _ Hin) as (n' & Hn' & _).
      destruct (Hplain _ _ Hin) as (? & ? & _).
      split; [done|]. split; [done|].
      split; [by exists n'|]. split; [by eapply Hlen|]. split; [done|].
      split; [rewrite HS; [done|by eapply Hsrc_hf]|].
      exists m, c. rewrite HS; [done|by eapply Hdst_hf]. }
  assert (FS.wf (st_fs st1u)) as Hwf1u by (by rewrite Hfs1u).
  assert (st_fs st1u !! source_directory e = Some Dir) as Hsd1u.
  { rewrite Hfs1u, HS; [done|]. intros E. apply (f_equal length) in E. lia. }
  pose proof (restore_fold e (length b) (reverse b) 0 st1u [] 0 Hwf1u Hsd1u Hres) as Hrf.
  unfold enumerate in Hfold. cbv zeta in Hrf. rewrite Hfold in Hrf. cbn [fst snd] in Hrf.
  destruct Hrf as (Hwf2 & Hn & Hfolders & Hmoved & Hother).
  rewrite length_reverse in Hn. simpl in Hn. subst n.
  rewrite Hfs1u in Hmoved, Hother.
  assert (∀ src dst, (src, dst) ∈ b →
            ∃ m c, fs0 !! src = Some (File m c)
                   ∧ st_fs st2 !! src = Some (File m c)
                   ∧ st_fs st2 !! dst = None) as V1.
  { intros src dst Hin.
    destruct (Hrec _ _ Hin) as (_ & _ & _ & m & c & Hsrc0 & Hdst1).
    destruct (Hmoved src dst) as [E1 E2]; [by apply elem_of_reverse_2|].
    exists m, c. split; [done|]. split; [|done].
    rewrite E1, HS; [done|by eapply Hdst_hf]. }
  assert (∀ p, p ∉ b.*1 → p ∉ b.*2 → p ≠ hf → st_fs st2 !! p = fs1 !! p) as V2.
  { intros p H1 H2 Hp. rewrite Hother, HS; [done..| |].
    - by rewrite fmap_reverse, elem_of_reverse.
    - by rewrite fmap_reverse, elem_of_reverse. }
  assert (hf ∉ b.*1) as Hhf_src.
  { intros (dst & Hin)%elem_of_fst. by eapply Hsrc_hf. }
  assert (hf ∉ b.*2) as Hhf_dst.
  { intros (src & Hin)%elem_of_snd. by eapply Hdst_hf. }
  assert (st_fs st2 !! hf = Some (File mt (JsonStack (s ++ [b])))) as V3.
  { rewrite Hother, HShf; [done| |].
    - by rewrite fmap_reverse, elem_of_reverse.
    - by rewrite fmap_reverse, elem_of_reverse. }
  assert (only_dirs e fs0 (st_fs st2)) as Honly.
  { intros p nd Hp H0 Hphf.
    destruct (decide (p ∈ b.*1)) as [(dst & Hin)%elem_of_fst|Hn1].
    { destruct (V1 _ _ Hin) as (m & c & E & _). congruence. }
    destruct (decide (p ∈ b.*2)) as [(src & Hin)%elem_of_snd|Hn2].
    { destruct (V1 _ _ Hin) as (m & c & _ & _ & E). congruence. }
    rewrite V2 in Hp by done.
    destruct (Hrest p Hn1 Hn2) as [E|(_ & E & _)]; congruence. }
  assert (∀ x, fresh_dir fs0 (st_fs st2) x →
            ∃ f, f ∈ folders ∧ x `prefix_of` f ∧ st_fs st2 !! f = Some Dir) as Hfresh.
  { intros x [Hx Hx0].
    assert (x ∉ b.*1) as Hn1.
    { intros (dst & Hin)%elem_of_fst.
      destruct (V1 _ _ Hin) as (m & c & E & _). congruence. }
    assert (x ∉ b.*2) as Hn2.
    { intros (src & Hin)%elem_of_snd.
      destruct (V1 _ _ Hin) as (m & c & _ & _ & E). congruence. }
    assert (x ≠ hf) as Hxhf by (intros ->; congruence).
    rewrite V2 in Hx by done.
    destruct (Hrest x Hn1 Hn2) as [E|(_ & _ & [src dst] & Hr & Hpre)]; [congruence|].
    simpl in Hpre. exists (FS.parent dst). split; [|split; [done|]].
    - apply Hfolders. right. apply list_elem_of_fmap. exists dst. split; [done|].
      apply list_elem_of_fmap. exists (src, dst). split; [done|].
      by apply elem_of_reverse_2.
    - destruct (Hrec _ _ Hr) as (_ & _ & _ & m & c & _ & Hdst1).
      pose proof (wf_parent _ _ _ Hwf1 Hdst1) as Hpar.
      rewrite V2; [done| | |].
      + intros (dst' & Hin)%elem_of_fst.
        destruct (Hrec _ _ Hin) as (_ & _ & E & _). congruence.
      + intros (src' & Hin)%elem_of_snd.
        destruct (Hrec _ _ Hin) as (_ & _ & _ & m' & c' & _ & E). congruence.
      + intros E. rewrite E in Hpar. done. }
  assert (Forall (λ f : path, ".." ∉ f) folders) as Hfplain.
  { apply Forall_forall. intros f Hf. apply Hfolders in Hf as [[]%elem_of_nil|Hf].
    apply list_elem_of_fmap in Hf as (dst & -> & Hd).
    apply list_elem_of_fmap in Hd as ([src dst'] & -> & Hin).
    rewrite elem_of_reverse in Hin. by destruct (Hplain _ _ Hin) as (_ & _ & ?). }
  destruct (cleanup_folders_spec e fs0 Hwf0 Hsd0 folders st2 Hset Hfplain Hwf2 Honly Hfresh)
    as (Hwf3 & Hshr & Hnone).
  set (st3 := cleanup_folders e folders st2) in *.
  assert (∀ p m c, st_fs st2 !! p = Some (File m c) → st_fs st3 !! p = Some (File m c))
    as Hfile3.
  { intros p m c Hp. destruct (Hshr p) as [E|[E _]]; congruence. }
  pose proof (Hfile3 _ _ _ V3) as Hhf3.
  assert (st_fs st3 !! source_directory e = Some Dir) as Hsd3.
  { assert (∃ r, r ∈ b) as ([src dst] & Hr).
    { destruct b as [|r b']; [done|]. exists r. by left. }
    destruct (V1 _ _ Hr) as (m & c & _ & E & _).
    destruct (Hsrc _ _ Hr) as (n' & -> & _).
    apply Hfile3 in E. rewrite <- (parent_snoc (source_directory e) n').
    by eapply wf_parent. }
  pose proof (persist_history_fs e s st3 _ _ Hhf3 Hsd3) as Hfin.
  set (st4 := persist_history e s st3) in *.
  assert (∀ p, p ≠ hf → st_fs st4 !! p = st_fs st3 !! p) as HP.
  { intros p Hp. rewrite Hfin. destruct s.
    - by rewrite lookup_delete_ne.
    - by rewrite lookup_insert_ne. }
  split; [done|]. split; [|split; [|split]].
  - intros p nd Hp Hp4. rewrite HP in Hp4 by done.
    assert (st_fs st2 !! p = Some nd) as Hp2.
    { destruct (Hshr p) as [E|[_ E]]; congruence. }
    destruct (decide (p ∈ b.*1)) as [(dst & Hin)%elem_of_fst|Hn1].
    { destruct (V1 _ _ Hin) as (m & c & E & E' & _). congruence. }
    destruct (decide (p ∈ b.*2)) as [(src & Hin)%elem_of_snd|Hn2].
    { destruct (V1 _ _ Hin) as (m & c & _ & _ & E). congruence. }
    rewrite V2 in Hp2 by done.
    destruct (Hrest p Hn1 Hn2) as [E|(E0 & E1 & _)]; [congruence|].
    destruct (Hnone p). split; [|done]. congruence.
  - intros p m c Hp0 Hp Hplan. rewrite HP by done. apply Hfile3.
    destruct (decide (p ∈ b.*1)) as [(dst & Hin)%elem_of_fst|Hn1].
    { destruct (V1 _ _ Hin) as (m' & c' & E & E' & _). congruence. }
    destruct (decide (p ∈ b.*2)) as [(src & Hin)%elem_of_snd|Hn2].
    { destruct (Hrec _ _ Hin) as (Hin' & E & _). by destruct (Hplan _ _ Hin'). }
    rewrite V2 by done.
    destruct (Hrest p Hn1 Hn2) as [E|(E0 & _)]; congruence.
  - unfold FS.is_dir. rewrite Hfin. destruct s.
    + by rewrite lookup_delete_eq.
    + by rewrite lookup_insert_eq.
  - destruct s.
    + rewrite stored_stack_unfold, Hfin. fold hf. by rewrite lookup_delete_eq.
    + rewrite Hfin. apply stored_stack_written.
Qed.

Lemma is_file_true fs p : FS.is_file fs p = true → ∃ m c, fs !! p = Some (File m c).
Proof. unfold FS.is_file. destruct (fs !! p) as [[|m c]|]; naive_solver. Qed.

Lemma is_file_lookup fs p m c : fs !! p = Some (File m c) → FS.is_file fs p = true.
Proof. unfold FS.is_file. by intros ->. Qed.

Lemma clash_free_check e fs plan :
  bool_decide (clash_free e fs plan) = true → clash_free e fs plan.
Proof. apply bool_decide_eq_true_1. Qed.

(** The round trip where nothing clashes. A call of [organize_files] that returns
    [n > 0], on a tree whose history path is not a directory and whose
    planned moves do not clash with what the directory holds (see
    [clash_free]), followed at once by [undo_organization]: the undo
    returns [n]; the regular files directly under the source directory
    bear the same names as before; the tree has no folder it did not
    have before, and indeed no entry at all that was not there with the
    same content, the history file apart; every regular file of the tree
    from before is there again unchanged, unless it sat on the very path
    a file was moved to; and the stored stack is the one from before. *)
Theorem undo_after_organize (e : engine)
    (sort_mode granularity keyword_rules folder_rules : string) (nested : bool)
    (st : state) (n : nat) (st1 : state) :
  FS.wf (st_fs st) →
  (∀ l, readdir_order e l ≡ₚ l) →
  (∀ l, set_order e l ≡ₚ l) →
  FS.is_dir (st_fs st) (history_file e) = false →
  clash_free e (st_fs st)
    (planned e sort_mode granularity
       (rule_table sort_mode keyword_rules folder_rules) nested (st_fs st)) →
  organize_files e sort_mode granularity keyword_rules folder_rules nested st
  = (inr n, st1) →
  0 < n →
  let after := undo_organization e st1 in
  after.1 = n
  ∧ same_file_set e (st_fs st) (st_fs after.2)
  ∧ no_new_folder (st_fs st) (st_fs after.2)
  ∧ (∀ p nd, p ≠ history_file e →
       st_fs after.2 !! p = Some nd → st_fs st !! p = Some nd)
  ∧ (∀ p m c, st_fs st !! p = Some (File m c) → p ≠ history_file e →
       (∀ item d,
          (item, d) ∈ planned e sort_mode granularity
                        (rule_table sort_mode keyword_rules folder_rules) nested
                        (st_fs st) →
          p ≠ d ++ [FS.name item]) →
       st_fs after.2 !! p = Some (File m c))
  ∧ stored_stack e (st_fs after.2) = stored_stack e (st_fs st).
Proof.
  intros Hwf Hread Hset Hhf Hclash Hrun Hn.
  destruct (organize_files_organized _ _ _ _ _ _ _ _ _ Hwf Hread Hhf Hclash Hrun Hn)
    as (Hsd & Hitems & b & fs1 & Hlen & Horg & Hfs1).
  assert (b ≠ []) as Hb by (intros ->; simpl in Hlen; lia).
  destruct (undo_organized e (st_fs st) _ b fs1 st1 (now e)
              Hwf Hsd Hitems Hclash Hset Hhf Hb Horg Hfs1)
    as (Hcount & Hnew & Hfiles & Hhf' & Hstack).
  cbv zeta. split; [lia|]. split; [|split; [|done]].
  - intros name Hname.
    assert (source_directory e ++ [name] ≠ history_file e) as Hne.
    { unfold history_file. by intros [_ ?]%app_inj_tail. }
    apply Bool.eq_true_iff_eq.
    split; intros (m & c & E)%is_file_true; apply (is_file_lookup _ _ m c).
    + by apply Hnew.
    + apply Hfiles; [done..|]. intros item d Hin E'.
      destruct (clash_free_at e (st_fs st) _ Hwf Hsd Hitems Hclash item d Hin)
        as (_ & Hd & _).
      apply (f_equal length) in E'. rewrite !length_app in E'. simpl in E'. lia.
  - intros p Hp. apply is_dir_lookup in Hp. apply is_dir_lookup.
    apply Hnew; [|done]. intros ->. apply is_dir_lookup in Hp. congruence.
Qed.

Lemma undo_after_organize_witness :
  let st1 := (organize_files (demo id) "By Extension" "" "" "" false
                (State three_files [])).2 in
  (undo_organization (demo id) st1).1 = 3
  ∧ same_file_set (demo id) three_files (st_fs (undo_organization (demo id) st1).2)
  ∧ no_new_folder three_files (st_fs (undo_organization (demo id) st1).2)
  ∧ stored_stack (demo id) (st_fs (undo_organization (demo id) st1).2) = [].
Proof.
  intros st1.
  destruct (undo_after_organize (demo id) "By Extension" "" "" "" false
              (State three_files []) 3 st1)
    as (Hcount & Hsame & Hfolder & _ & _ & Hstack).
  - apply wf_check. vm_compute. reflexivity.
  - intros l. reflexivity.
  - intros l. reflexivity.
  - vm_compute. reflexivity.
  - apply clash_free_check. vm_compute. reflexivity.
  - vm_compute. reflexivity.
  - lia.
  - split; [exact Hcount|]. split; [exact Hsame|]. split; [exact Hfolder|].
    exact Hstack.
Defined.

(** A call of [organize_files] that finds nothing to move pushes no
    batch, so the undo that follows reverts the batch of an earlier call
    and the file set differs from the one before the call. *)
Lemma undo_reverts_earlier_batch :
  ¬ (∀ e sort_mode granularity keyword_rules folder_rules nested st,
       FS.wf (st_fs st) →
       let st1 := (organize_files e sort_mode granularity keyword_rules
                     folder_rules nested st).2 in
       same_file_set e (st_fs st) (st_fs (undo_organization e st1).2)).
Proof.
  intros H.
  assert (FS.wf organized_before) as Hwf by (apply wf_check; vm_compute; reflexivity).
  specialize (H (demo id) "By Extension" "" "" "" false (State organized_before [])
                Hwf "notes.txt").
  vm_compute in H. by specialize (H ltac:(discriminate)).
Qed.

(** ** A file named like a destination folder *)

(** C1 fails on the code. The directory holds the regular files [txt]
    and [a.txt], listed in that order, and is organized by extension:
    [txt] goes to [other/txt], [a.txt] to [txt/a.txt], and the call
    returns 2. The undo that follows at once moves [txt/a.txt] back,
    then moves [other/txt] to [txt], where the folder [txt] still is,
    the cleanup coming after the restore loop: [shutil.move] puts the
    file into the folder. The undo returns 2, yet the file set is not
    the one from before and a folder that was not there remains. *)
Theorem undo_name_clash_residue :
  let e := demo (λ _, ["txt"; "a.txt"]) in
  let run := organize_files e "By Extension" "" "" "" false (State name_clash []) in
  let after := undo_organization e run.2 in
  FS.wf name_clash
  ∧ run.1 = inr 2
  ∧ after.1 = 2
  ∧ ¬ same_file_set e name_clash (st_fs after.2)
  ∧ ¬ no_new_folder name_clash (st_fs after.2)
  ∧ FS.is_file name_clash (home ++ ["txt"]) = true
  ∧ st_fs after.2 !! (home ++ ["txt"]) = Some Dir
  ∧ st_fs after.2 !! (home ++ ["txt"; "txt"]) = name_clash !! (home ++ ["txt"])
  ∧ st_fs after.2 !! (home ++ ["a.txt"]) = name_clash !! (home ++ ["a.txt"]).
Proof.
  cbv zeta. split; [apply wf_check; vm_compute; reflexivity|].
  split; [vm_compute; reflexivity|]. split; [vm_compute; reflexivity|].
  split; [|split; [|vm_compute; done]].
  - intros H. specialize (H "txt" ltac:(discriminate)). vm_compute in H. done.
  - intros H. specialize (H (home ++ ["txt"]) ltac:(vm_compute; reflexivity)).
    vm_compute in H. done.
Qed.

(** C6 fails on the code, by the same defect. The undo of the batch
    recorded above tries its two records last first and neither attempt
    raises, so it returns 2; but only the record of [a.txt] has its file
    back on its source: the source of the other is the folder [txt], and
    its file sits in that folder. *)
Theorem undo_counts_misplaced_record :
  let e := demo (λ _, ["txt"; "a.txt"]) in
  let st1 := (organize_files e "By Extension" "" "" "" false (State name_clash [])).2 in
  let b := [(home ++ ["txt"], home ++ ["other"; "txt"]);
            (home ++ ["a.txt"], home ++ ["txt"; "a.txt"])] in
  let after := undo_organization e st1 in
  stored_stack e (st_fs st1) = [b]
  ∧ after.1 = 2
  ∧ restore_attempts (st_out after.2)
    = [(home ++ ["txt"; "a.txt"], true); (home ++ ["other"; "txt"], true)]
  ∧ back_at_source (st_fs st1) (st_fs after.2) b
    = [(home ++ ["a.txt"], home ++ ["txt"; "a.txt"])]
  ∧ st_fs after.2 !! (home ++ ["txt"]) = Some Dir
  ∧ st_fs after.2 !! (home ++ ["txt"; "txt"]) = st_fs st1 !! (home ++ ["other"; "txt"]).
Proof. vm_compute. done. Qed.
